(** * Veo Gallery: the generation workflow and the App state machine

    A shallow embedding of the gallery application's main module (the [App]
    component with [generateVideoFromText]), of [types.ts] and of
    [components/HistoryPage.tsx], followed by the properties the
    specification states about them.

    Conventions of the embedding:
    - a JavaScript string is the list of its UTF-16 code units;
    - a [Date] is its [getTime()] value, an integer number of milliseconds;
    - an [async] function is a computation in the [Async] monad: it ends
      fulfilled, rejected or still pending, and records the calls it makes
      on the outside world (console, timer, SDK, network) in a trace;
    - the outside world is a record of replies ([World]);
    - React state is the record [State]; each [setX] is a record update. *)

From Stdlib Require Import ZArith NArith List String Ascii Sorted Permutation Lia.
From Stdlib Require Import DecimalString.
From stdpp Require Import base option list gmap.

Local Open Scope N_scope.

(* ===================================================================== *)
(** ** JavaScript strings *)
(* ===================================================================== *)

Module JS.

(** A string value: its UTF-16 code units. *)
Abbreviation jsstring := (list N).

(** An ASCII literal of the source as code units. *)
Definition lit (s : string) : jsstring :=
  List.map N_of_ascii (list_ascii_of_string s).

(** The double-quote character, which the source writes inside template
    literals. *)
Definition dquote : jsstring := [34].

(** ECMAScript [WhiteSpace] and [LineTerminator] code points, the ones
    [String.prototype.trim] strips. All of them are single code units. *)
Definition isWhiteSpace (c : N) : bool :=
  (c =? 0x09) || (c =? 0x0A) || (c =? 0x0B) || (c =? 0x0C) || (c =? 0x0D)
  || (c =? 0x20) || (c =? 0xA0) || (c =? 0x1680)
  || ((0x2000 <=? c) && (c <=? 0x200A))
  || (c =? 0x2028) || (c =? 0x2029) || (c =? 0x202F) || (c =? 0x205F)
  || (c =? 0x3000) || (c =? 0xFEFF).

Fixpoint trimStart (s : jsstring) : jsstring :=
  match s with
  | c :: s' => if isWhiteSpace c then trimStart s' else s
  | [] => []
  end.

Definition trimEnd (s : jsstring) : jsstring := rev (trimStart (rev s)).

(** [s.trim()] *)
Definition trim (s : jsstring) : jsstring := trimEnd (trimStart s).

(** Truthiness of a string: the empty string is the only falsy one. *)
Definition truthy (s : jsstring) : bool :=
  match s with [] => false | _ :: _ => true end.

(** [s.substring(0, n)] *)
Definition substring0 (n : nat) (s : jsstring) : jsstring := take n s.

(** [s.split(sep)] for a one-unit separator: never the empty array. *)
Fixpoint split (sep : N) (s : jsstring) : list jsstring :=
  match s with
  | [] => [[]]
  | c :: s' =>
      if c =? sep then [] :: split sep s'
      else match split sep s' with
           | piece :: pieces => (c :: piece) :: pieces
           | [] => [[c]]
           end
  end.

(** What a template literal writes for a value that may be [undefined]. *)
Definition interpolate (v : option jsstring) : jsstring :=
  match v with Some s => s | None => lit "undefined" end.

(** What a template literal writes for a non-negative integer. *)
Definition ofNumber (n : N) : jsstring :=
  lit (NilZero.string_of_uint (N.to_uint n)).

End JS.
Import JS.

(* ===================================================================== *)
(** ** types.ts *)
(* ===================================================================== *)

Record Video := mkVideo {
  id : jsstring;
  videoUrl : jsstring;
  title : jsstring;
  description : jsstring;
}.

(** [HistoryVideo extends Video]: the fields of the video and the creation
    time ([createdAt.getTime()]). *)
Record HistoryVideo := mkHistoryVideo {
  toVideo :> Video;
  createdAt : Z;
}.

#[global] Instance Video_eq_dec : EqDecision Video.
Proof. solve_decision. Defined.

#[global] Instance HistoryVideo_eq_dec : EqDecision HistoryVideo.
Proof. solve_decision. Defined.

(* ===================================================================== *)
(** ** The outside world: SDK, network, browser *)
(* ===================================================================== *)

(** The part of the [@google/genai] types the program reads. Optional
    fields are options; a missing or false [done] is [false]. *)
Record SdkVideo := mkSdkVideo { uri : option jsstring }.

Record GeneratedVideo := mkGeneratedVideo { video : option SdkVideo }.

Record GenerateVideosResponse := mkResponse {
  generatedVideos : option (list GeneratedVideo);
}.

Record Operation := mkOperation {
  name : jsstring;
  done : bool;
  response : option GenerateVideosResponse;
}.

Record GenerateVideosConfig := mkConfig {
  numberOfVideos : N;
  aspectRatio : jsstring;
}.

Record GenerateVideosParameters := mkParams {
  model : jsstring;
  prompt : jsstring;
  config : GenerateVideosConfig;
}.

(** Values a promise of the program can be rejected with. *)
Inductive JsError :=
  | Error (message : jsstring)      (* [new Error(message)] of the program *)
  | TypeError                       (* a property read on [undefined] *)
  | URIError                        (* [decodeURIComponent] on a malformed string *)
  | External (reason : jsstring).   (* a rejection of the SDK, [fetch] or [res.blob()] *)

(** A [Blob] is opaque to the program: it is only handed to a [FileReader]. *)
Definition Blob := N.

(** What [fetch] resolves to; [body] is what [res.blob()] settles with. *)
Record Response := mkFetchResponse {
  ok : bool;
  status : N;
  statusText : jsstring;
  body : JsError + Blob;
}.

(** The replies of everything outside the program. The [k]-th call of
    [ai.operations.getVideosOperation] is answered by [getVideosOperation k];
    [readAsDataURL] is [reader.result] once [onload] fires, and [None] when
    the read fails and [onload] never fires. [settledAt url] is the moment at
    which the download that fetched [url] is over, one way or the other;
    only the order of these moments matters. *)
Record World := mkWorld {
  API_KEY : option jsstring;                         (* process.env.API_KEY *)
  generateVideos : GenerateVideosParameters -> JsError + Operation;
  getVideosOperation : nat -> Operation -> JsError + Operation;
  decodeURIComponent : jsstring -> option jsstring;
  fetch : jsstring -> JsError + Response;
  readAsDataURL : Blob -> option jsstring;
  settledAt : jsstring -> N;
  randomUUID : jsstring;                             (* self.crypto.randomUUID() *)
  now : Z;                                           (* new Date() *)
}.

(** The calls on the outside world, in program order. The last one is here
    to be told apart from the others: no function of the program makes it. *)
Inductive Event :=
  | EvLog (args : list jsstring)                         (* console.log *)
  | EvConsoleError (label : jsstring) (e : JsError)      (* console.error *)
  | EvGenerateVideos (params : GenerateVideosParameters) (* ai.models.generateVideos *)
  | EvSetTimeout (ms : N)                                (* setTimeout(resolve, ms) *)
  | EvGetVideosOperation (operation : Operation)         (* ai.operations.getVideosOperation *)
  | EvFetch (url : jsstring)                             (* fetch *)
  | EvStorageSetItem (key value : jsstring).             (* localStorage.setItem *)

(** The SDK client: [new GoogleGenAI({apiKey: process.env.API_KEY})]. *)
Record GoogleGenAI := mkGoogleGenAI { apiKey : option jsstring }.

Definition VEO_MODEL_NAME : jsstring := lit "veo-2.0-generate-001".

Definition ai (w : World) : GoogleGenAI := {| apiKey := API_KEY w |}.

(* ===================================================================== *)
(** ** Promises *)
(* ===================================================================== *)

(** How an awaited promise stands: fulfilled, rejected, or never settled
    within the polls the run was given. *)
Inductive Outcome (A : Type) :=
  | Fulfilled (a : A)
  | Rejected (e : JsError)
  | Pending.
Arguments Fulfilled {A} a.
Arguments Rejected {A} e.
Arguments Pending {A}.

(** An asynchronous computation: its outcome and the calls it made. *)
Definition Async (A : Type) : Type := Outcome A * list Event.

Definition ret {A} (a : A) : Async A := (Fulfilled a, []).
Definition throw {A} (e : JsError) : Async A := (Rejected e, []).
Definition never {A} : Async A := (Pending, []).
Definition emit (ev : Event) : Async unit := (Fulfilled tt, [ev]).

(** [await m] followed by [k]: a rejection or a promise that never settles
    ends the computation there. *)
Definition bind {A B} (m : Async A) (k : A -> Async B) : Async B :=
  match m with
  | (Fulfilled a, t) => let '(o, t') := k a in (o, t ++ t')
  | (Rejected e, t) => (Rejected e, t)
  | (Pending, t) => (Pending, t)
  end.

Notation "x <- m ;; k" := (bind m (fun x => k))
  (at level 100, m at next level, right associativity).
Notation "m ;;; k" := (bind m (fun _ => k))
  (at level 100, right associativity).

(** A settled SDK or network reply as a promise. *)
Definition settle {A} (r : JsError + A) : Async A :=
  match r with inl e => throw e | inr a => ret a end.

(** A promise handed to [Promise.all], with the moment it settles: [None]
    when it settled before its first [await], so that it is settled already
    when [Promise.all] looks at it, and [Some t] when it settles later, at
    the moment [t]. *)
Definition Started (A : Type) : Type := option N * Async A.

(** [a] is strictly before [b]. *)
Definition before (a b : option N) : bool :=
  match a, b with
  | None, Some _ => true
  | Some x, Some y => x <? y
  | _, None => false
  end.

(** The rejection [Promise.all] gets first: the earliest one, and of those
    of one moment the first in array order. *)
Fixpoint firstRejection {A} (ps : list (Started A))
  : option (option N * JsError) :=
  match ps with
  | [] => None
  | (t, (o, _)) :: ps' =>
      match o with
      | Rejected e =>
          match firstRejection ps' with
          | Some (t', e') => if before t' t then Some (t', e') else Some (t, e)
          | None => Some (t, e)
          end
      | _ => firstRejection ps'
      end
  end.

(** The values in array order, when every promise is fulfilled. *)
Fixpoint fulfilledValues {A} (ps : list (Started A)) : option (list A) :=
  match ps with
  | [] => Some []
  | (_, (Fulfilled a, _)) :: ps' => option_map (cons a) (fulfilledValues ps')
  | _ => None
  end.

(** [Promise.all] over promises already started, in array order: the calls
    of all of them have been issued; it rejects with the first rejection it
    gets, stays pending when none rejects and one never settles, and
    otherwise is fulfilled with the values in array order. *)
Definition Promise_all {A} (ps : list (Started A)) : Async (list A) :=
  (match firstRejection ps with
   | Some (_, e) => Rejected e
   | None =>
       match fulfilledValues ps with
       | Some l => Fulfilled l
       | None => Pending
       end
   end,
   concat (List.map (fun p : Started A => snd (snd p)) ps)).

(* ===================================================================== *)
(** ** bloblToBase64 and generateVideoFromText *)
(* ===================================================================== *)

(** [bloblToBase64]: resolves from [onload] with [url.split(',')[1]];
    nothing resolves or rejects the promise when the read fails. *)
Definition bloblToBase64 (w : World) (blob : Blob) : Async (option jsstring) :=
  match readAsDataURL w blob with
  | Some url => ret (split 44 url !! 1%nat)
  | None => never
  end.

(** The polling loop of [generateVideoFromText]; [k] counts the polls made
    so far and [fuel] bounds the polls of this run. *)
Fixpoint pollLoop (fuel : nat) (w : World) (k : nat) (operation : Operation)
  : Async Operation :=
  if done operation then ret operation
  else
    match fuel with
    | O => never
    | S fuel' =>
        emit (EvSetTimeout 10000) ;;;
        emit (EvLog [lit "...Generating..."]) ;;;
        emit (EvGetVideosOperation operation) ;;;
        operation' <- settle (getVideosOperation w k operation) ;;
        pollLoop fuel' w (S k) operation'
    end.

(** The callback mapped over the generated videos. *)
Definition fetchGeneratedVideo (w : World) (generatedVideo : GeneratedVideo)
  : Async (option jsstring) :=
  v <- match video generatedVideo with
       | Some v => ret v
       | None => throw TypeError
       end ;;
  url <- match decodeURIComponent w (interpolate (uri v)) with
         | Some url => ret url
         | None => throw URIError
         end ;;
  let target := url ++ lit "&key=" ++ interpolate (API_KEY w) in
  emit (EvFetch target) ;;;
  res <- settle (fetch w target) ;;
  if negb (ok res) then
    throw (Error (lit "Failed to fetch video: " ++ ofNumber (status res)
                  ++ lit " " ++ statusText res))
  else
    blob <- settle (body res) ;;
    bloblToBase64 w blob.

(** When the promise of that callback settles: at once when it throws
    before its first [await], the one of [fetch]; otherwise at the moment the
    world gives for the URL it fetches. *)
Definition fetchSettledAt (w : World) (generatedVideo : GeneratedVideo)
  : option N :=
  match video generatedVideo with
  | None => None
  | Some v =>
      match decodeURIComponent w (interpolate (uri v)) with
      | None => None
      | Some url =>
          Some (settledAt w (url ++ lit "&key=" ++ interpolate (API_KEY w)))
      end
  end.

(** The callback as [videos.map] starts it. *)
Definition startFetch (w : World) (generatedVideo : GeneratedVideo)
  : Started (option jsstring) :=
  (fetchSettledAt w generatedVideo, fetchGeneratedVideo w generatedVideo).

Definition generateVideoFromText (fuel : nat) (w : World) (prompt : jsstring)
  : Async (list (option jsstring)) :=
  let numberOfVideos := 1 in
  let params := {| model := VEO_MODEL_NAME;
                   prompt := prompt;
                   config := {| numberOfVideos := numberOfVideos;
                                aspectRatio := lit "16:9" |} |} in
  emit (EvGenerateVideos params) ;;;
  operation <- settle (generateVideos w params) ;;
  operation <- pollLoop fuel w 0 operation ;;
  match response operation with
  | Some resp =>
      match generatedVideos resp with
      | None | Some [] => throw (Error (lit "No videos generated"))
      | Some videos => Promise_all (List.map (startFetch w) videos)
      end
  | None => throw (Error (lit "No videos generated"))
  end.

(* ===================================================================== *)
(** ** The App component: state *)
(* ===================================================================== *)

Inductive View := gallery | history.

(** The eleven [useState] cells of [App]. *)
Record State := mkState {
  videos : list Video;
  playingVideo : option Video;
  editingVideo : option Video;
  isSaving : bool;
  savingMessage : jsstring;
  generationError : option (list jsstring);
  view : View;
  generatedVideosHistory : list HistoryVideo;
  newVideoPrompt : jsstring;
  loadingVideoId : option jsstring;
  isPlaying : bool;
}.

(** The state [App] mounts with. [MOCK_VIDEOS] comes from [./constants]. *)
Definition initialState (MOCK_VIDEOS : list Video) : State :=
  {| videos := MOCK_VIDEOS;
     playingVideo := None;
     editingVideo := None;
     isSaving := false;
     savingMessage := [];
     generationError := None;
     view := gallery;
     generatedVideosHistory := [];
     newVideoPrompt := [];
     loadingVideoId := None;
     isPlaying := false |}.

(** [setVideos] and [setGeneratedVideosHistory] are only called with an
    updater function; the other setters with a value. *)
Definition setVideos (f : list Video -> list Video) (s : State) : State :=
  mkState (f (videos s)) (playingVideo s) (editingVideo s) (isSaving s)
    (savingMessage s) (generationError s) (view s) (generatedVideosHistory s)
    (newVideoPrompt s) (loadingVideoId s) (isPlaying s).

Definition setPlayingVideo (v : option Video) (s : State) : State :=
  mkState (videos s) v (editingVideo s) (isSaving s)
    (savingMessage s) (generationError s) (view s) (generatedVideosHistory s)
    (newVideoPrompt s) (loadingVideoId s) (isPlaying s).

Definition setEditingVideo (v : option Video) (s : State) : State :=
  mkState (videos s) (playingVideo s) v (isSaving s)
    (savingMessage s) (generationError s) (view s) (generatedVideosHistory s)
    (newVideoPrompt s) (loadingVideoId s) (isPlaying s).

Definition setIsSaving (b : bool) (s : State) : State :=
  mkState (videos s) (playingVideo s) (editingVideo s) b
    (savingMessage s) (generationError s) (view s) (generatedVideosHistory s)
    (newVideoPrompt s) (loadingVideoId s) (isPlaying s).

Definition setSavingMessage (m : jsstring) (s : State) : State :=
  mkState (videos s) (playingVideo s) (editingVideo s) (isSaving s)
    m (generationError s) (view s) (generatedVideosHistory s)
    (newVideoPrompt s) (loadingVideoId s) (isPlaying s).

Definition setGenerationError (e : option (list jsstring)) (s : State) : State :=
  mkState (videos s) (playingVideo s) (editingVideo s) (isSaving s)
    (savingMessage s) e (view s) (generatedVideosHistory s)
    (newVideoPrompt s) (loadingVideoId s) (isPlaying s).

Definition setView (v : View) (s : State) : State :=
  mkState (videos s) (playingVideo s) (editingVideo s) (isSaving s)
    (savingMessage s) (generationError s) v (generatedVideosHistory s)
    (newVideoPrompt s) (loadingVideoId s) (isPlaying s).

Definition setGeneratedVideosHistory
    (f : list HistoryVideo -> list HistoryVideo) (s : State) : State :=
  mkState (videos s) (playingVideo s) (editingVideo s) (isSaving s)
    (savingMessage s) (generationError s) (view s) (f (generatedVideosHistory s))
    (newVideoPrompt s) (loadingVideoId s) (isPlaying s).

Definition setNewVideoPrompt (p : jsstring) (s : State) : State :=
  mkState (videos s) (playingVideo s) (editingVideo s) (isSaving s)
    (savingMessage s) (generationError s) (view s) (generatedVideosHistory s)
    p (loadingVideoId s) (isPlaying s).

Definition setLoadingVideoId (i : option jsstring) (s : State) : State :=
  mkState (videos s) (playingVideo s) (editingVideo s) (isSaving s)
    (savingMessage s) (generationError s) (view s) (generatedVideosHistory s)
    (newVideoPrompt s) i (isPlaying s).

Definition setIsPlaying (b : bool) (s : State) : State :=
  mkState (videos s) (playingVideo s) (editingVideo s) (isSaving s)
    (savingMessage s) (generationError s) (view s) (generatedVideosHistory s)
    (newVideoPrompt s) (loadingVideoId s) b.

(** Statements of a handler in source order: [s |> setA x |> setB y]. *)
Notation "s |> f" := (f s) (at level 45, left associativity, only parsing).

(* ===================================================================== *)
(** ** The App component: handlers *)
(* ===================================================================== *)

Definition handlePlayVideo (video : Video) (s : State) : State :=
  s |> setLoadingVideoId (Some (id video))
    |> setPlayingVideo (Some video)
    |> setIsPlaying true.

Definition handleClosePlayer (s : State) : State :=
  s |> setPlayingVideo None
    |> setLoadingVideoId None
    |> setIsPlaying false.

Definition handleVideoLoaded (s : State) : State :=
  s |> setLoadingVideoId None.

Definition handleStartEdit (video : Video) (s : State) : State :=
  s |> setPlayingVideo None
    |> setIsPlaying false
    |> setLoadingVideoId None
    |> setEditingVideo (Some video).

Definition handleCancelEdit (s : State) : State :=
  s |> setEditingVideo None.

(** The message both [catch] blocks set. *)
Definition GENERATION_FAILED : list jsstring :=
  [ lit "Video generation failed.";
    lit "This may be due to an invalid API key or network issues." ].

(** What [await generateVideoFromText(...)] hands back once it settles. *)
Definition Settlement : Type := JsError + list (option jsstring).

(** The [catch] block shared in shape by both handlers. *)
Definition catchBlock (error : JsError) (s : State) : State * list Event :=
  (s |> setGenerationError (Some GENERATION_FAILED),
   [EvConsoleError (lit "Video generation failed:") error]).

(** [handleSaveEdit], up to the [await]. *)
Definition handleSaveEdit_start (s : State) : State :=
  s |> setEditingVideo None
    |> setSavingMessage (lit "Creating your remix...")
    |> setIsSaving true
    |> setGenerationError None.

(** [handleSaveEdit], from the [await] on: the rest of the [try] block, the
    [catch] block and the [finally] block. [uuid] and [date] are what
    [self.crypto.randomUUID()] and [new Date()] return. *)
Definition handleSaveEdit_resume (uuid : jsstring) (date : Z)
    (originalVideo : Video) (result : Settlement) (s : State)
  : State * list Event :=
  let tried : JsError + State * list Event :=
    match result with
    | inl error => inl error
    | inr [] => inl (Error (lit "Video generation returned no data."))
    | inr (videoSrc :: _) =>
        let mimeType := lit "video/mp4" in
        let src := lit "data:" ++ mimeType ++ lit ";base64,"
                   ++ interpolate videoSrc in
        let newVideo :=
          {| id := uuid;
             title := lit "Remix of " ++ dquote ++ title originalVideo ++ dquote;
             description := description originalVideo;
             videoUrl := src |} in
        let newHistoryVideo :=
          {| toVideo := newVideo; createdAt := date |} in
        inr (s |> setVideos (fun currentVideos => newVideo :: currentVideos)
               |> setGeneratedVideosHistory
                    (fun currentHistory => newHistoryVideo :: currentHistory)
               |> setView history
               |> setPlayingVideo (Some newVideo)
               |> setIsPlaying true,
             [EvLog [lit "Generated video data received."]])
    end in
  let '(s', calls) :=
    match tried with
    | inr done_ => done_
    | inl error => catchBlock error s
    end in
  (s' |> setIsSaving false, calls).

(** [handleGenerateNewVideo], up to the [await]; the guard on the prompt is
    in [handleGenerateNewVideo] below. *)
Definition handleGenerateNewVideo_start (s : State) : State :=
  s |> setSavingMessage (lit "Generating your video...")
    |> setIsSaving true
    |> setGenerationError None.

(** [handleGenerateNewVideo], from the [await] on. [promptText] is the
    trimmed prompt the handler captured when it started. *)
Definition handleGenerateNewVideo_resume (uuid : jsstring) (date : Z)
    (promptText : jsstring) (result : Settlement) (s : State)
  : State * list Event :=
  let tried : JsError + State * list Event :=
    match result with
    | inl error => inl error
    | inr [] => inl (Error (lit "Video generation returned no data."))
    | inr (videoSrc :: _) =>
        let mimeType := lit "video/mp4" in
        let src := lit "data:" ++ mimeType ++ lit ";base64,"
                   ++ interpolate videoSrc in
        let newVideo :=
          {| id := uuid;
             title := lit "Generated: " ++ dquote ++ substring0 40 promptText
                      ++ (if (40 <? length promptText)%nat then lit "..." else [])
                      ++ dquote;
             description := promptText;
             videoUrl := src |} in
        let newHistoryVideo :=
          {| toVideo := newVideo; createdAt := date |} in
        inr (s |> setVideos (fun currentVideos => newVideo :: currentVideos)
               |> setGeneratedVideosHistory
                    (fun currentHistory => newHistoryVideo :: currentHistory)
               |> setNewVideoPrompt []
               |> setView history
               |> setPlayingVideo (Some newVideo)
               |> setIsPlaying true,
             [EvLog [lit "Generated video data received."]])
    end in
  let '(s', calls) :=
    match tried with
    | inr done_ => done_
    | inl error => catchBlock error s
    end in
  (s' |> setIsSaving false, calls).

(** One run of an [async] handler with nothing interleaved: whether its
    promise settled, the state it leaves and the calls it made. *)
Record HandlerRun := mkRun {
  settled : bool;
  final : State;
  calls : list Event;
}.

(** Runs the part of a handler around the [await]. *)
Definition awaitGeneration (fuel : nat) (w : World) (greeting : jsstring)
    (promptText : jsstring) (started : State)
    (resume : Settlement -> State -> State * list Event) : HandlerRun :=
  let '(o, t) :=
    (emit (EvLog [greeting; promptText]) ;;;
     generateVideoFromText fuel w promptText) in
  match o with
  | Fulfilled videoObjects =>
      let '(s', t') := resume (inr videoObjects) started in
      mkRun true s' (t ++ t')
  | Rejected error =>
      let '(s', t') := resume (inl error) started in
      mkRun true s' (t ++ t')
  | Pending => mkRun false started t
  end.

Definition handleSaveEdit (fuel : nat) (w : World) (originalVideo : Video)
    (s : State) : HandlerRun :=
  let promptText := description originalVideo in
  awaitGeneration fuel w (lit "Generating video...") promptText
    (handleSaveEdit_start s)
    (handleSaveEdit_resume (randomUUID w) (now w) originalVideo).

Definition handleGenerateNewVideo (fuel : nat) (w : World) (s : State)
  : HandlerRun :=
  if negb (truthy (trim (newVideoPrompt s))) then mkRun true s []
  else
    let promptText := trim (newVideoPrompt s) in
    awaitGeneration fuel w (lit "Generating video from new prompt...") promptText
      (handleGenerateNewVideo_start s)
      (handleGenerateNewVideo_resume (randomUUID w) (now w) promptText).

(* ===================================================================== *)
(** ** The App component: what it renders, and the browser around it *)
(* ===================================================================== *)

(** What [<main>] shows: the grid of the gallery or the history page, each
    with its props. *)
Inductive MainContent :=
  | VideoGridElement (videos : list Video) (loadingVideoId : option jsstring)
  | HistoryPageElement (videos : list HistoryVideo)
                       (loadingVideoId : option jsstring).

(** The main page below the header, as far as the callbacks depend on it. *)
Record MainPage := mkMainPage {
  promptValue : jsstring;
  promptDisabled : bool;       (* textarea [disabled] *)
  generateDisabled : bool;     (* button [disabled] *)
  generateLabel : jsstring;
  galleryTabActive : bool;
  historyTabActive : bool;
  content : MainContent;
}.

Inductive Body :=
  | EditVideoPage (video : Video)
  | Main (page : MainPage).

(** The element tree [App] returns. *)
Inductive Rendered :=
  | SavingProgressPage (message : jsstring)
  | AppShell (body : Body)
             (videoPlayer : option Video)
             (errorModal : option (list jsstring)).

Definition render (s : State) : Rendered :=
  if isSaving s then SavingProgressPage (savingMessage s)
  else
    AppShell
      (match editingVideo s with
       | Some v => EditVideoPage v
       | None =>
           Main {| promptValue := newVideoPrompt s;
                   promptDisabled := isSaving s;
                   generateDisabled :=
                     negb (truthy (trim (newVideoPrompt s))) || isSaving s;
                   generateLabel :=
                     if isSaving s then lit "Generating..."
                     else lit "Generate Video";
                   galleryTabActive :=
                     match view s with gallery => true | history => false end;
                   historyTabActive :=
                     match view s with history => true | gallery => false end;
                   content :=
                     match view s with
                     | gallery => VideoGridElement (videos s) (loadingVideoId s)
                     | history =>
                         HistoryPageElement (generatedVideosHistory s)
                                            (loadingVideoId s)
                     end |}
       end)
      (if isPlaying s then playingVideo s else None)
      (generationError s).

(** The callbacks [App] hands to the tree. *)
Inductive Action :=
  | OnPlayVideo (video : Video)       (* VideoGrid, HistoryPage: [onPlayVideo] *)
  | OnClose                           (* VideoPlayer: [onClose] *)
  | OnVideoLoaded                     (* VideoPlayer: [onVideoLoaded] *)
  | OnEdit (video : Video)            (* VideoPlayer: [onEdit] *)
  | OnCancel                          (* EditVideoPage: [onCancel] *)
  | OnSave (video : Video)            (* EditVideoPage: [onSave] *)
  | OnChangePrompt (value : jsstring) (* textarea: [onChange] *)
  | OnGenerate                        (* button: [onClick] *)
  | OnSelectView (v : View)           (* nav buttons: [onClick] *)
  | OnCloseError                      (* ErrorModal: [onClose] *)
  | OnSelectKey.                      (* ErrorModal: [onSelectKey] *)

(** Which callbacks a rendered tree can call. A component calls only the
    callbacks in its props; a disabled control calls none. [VideoPlayer]
    calls [onEdit] with its own [video]; the components that are given a
    list may call [onPlayVideo] with any video. *)
Definition offers (r : Rendered) (a : Action) : bool :=
  match r with
  | SavingProgressPage _ => false
  | AppShell body videoPlayer errorModal =>
      match a with
      | OnSave _ | OnCancel =>
          match body with EditVideoPage _ => true | Main _ => false end
      | OnChangePrompt _ =>
          match body with
          | Main page => negb (promptDisabled page)
          | EditVideoPage _ => false
          end
      | OnGenerate =>
          match body with
          | Main page => negb (generateDisabled page)
          | EditVideoPage _ => false
          end
      | OnSelectView _ | OnPlayVideo _ =>
          match body with Main _ => true | EditVideoPage _ => false end
      | OnClose | OnVideoLoaded =>
          match videoPlayer with Some _ => true | None => false end
      | OnEdit video =>
          match videoPlayer with
          | Some shown => bool_decide (shown = video)
          | None => false
          end
      | OnCloseError | OnSelectKey =>
          match errorModal with Some _ => true | None => false end
      end
  end.

(** A generation request whose promise has not settled yet, with what its
    handler captured. *)
Inductive Request :=
  | Remix (originalVideo : Video)         (* started by [handleSaveEdit] *)
  | FromPrompt (promptText : jsstring).   (* started by [handleGenerateNewVideo] *)

(** The page in the browser: the component state, the requests in flight
    and the origin's persistent storage ([localStorage]). *)
Record Browser := mkBrowser {
  app : State;
  inFlight : list Request;
  storage : list (jsstring * jsstring);
}.

(** What can happen to the page. *)
Inductive Input :=
  | User (a : Action)
  | Settles (i : nat) (result : Settlement) (uuid : jsstring) (date : Z)
  | Reload.

(** Loading the page mounts [App] on its initial state. *)
Definition load (MOCK_VIDEOS : list Video) (stored : list (jsstring * jsstring))
  : Browser :=
  {| app := initialState MOCK_VIDEOS; inFlight := []; storage := stored |}.

(** The synchronous part of the handler an action is wired to, and the
    request it leaves in flight. *)
Definition dispatch (a : Action) (s : State) : State * list Request :=
  match a with
  | OnPlayVideo video => (handlePlayVideo video s, [])
  | OnClose => (handleClosePlayer s, [])
  | OnVideoLoaded => (handleVideoLoaded s, [])
  | OnEdit video => (handleStartEdit video s, [])
  | OnCancel => (handleCancelEdit s, [])
  | OnSave originalVideo => (handleSaveEdit_start s, [Remix originalVideo])
  | OnChangePrompt value => (setNewVideoPrompt value s, [])
  | OnGenerate =>
      if negb (truthy (trim (newVideoPrompt s))) then (s, [])
      else (handleGenerateNewVideo_start s,
            [FromPrompt (trim (newVideoPrompt s))])
  | OnSelectView v => (setView v s, [])
  | OnCloseError => (setGenerationError None s, [])
  | OnSelectKey => (s, [])
  end.

(** The rest of the handler of a request, run when its promise settles. *)
Definition resume (r : Request) (uuid : jsstring) (date : Z)
    (result : Settlement) (s : State) : State :=
  match r with
  | Remix originalVideo =>
      fst (handleSaveEdit_resume uuid date originalVideo result s)
  | FromPrompt promptText =>
      fst (handleGenerateNewVideo_resume uuid date promptText result s)
  end.

(** One step of the page; [None] when the input cannot happen in [b]. *)
Definition step (MOCK_VIDEOS : list Video) (b : Browser) (i : Input)
  : option Browser :=
  match i with
  | User a =>
      if offers (render (app b)) a then
        let '(s', started) := dispatch a (app b) in
        Some {| app := s';
                inFlight := inFlight b ++ started;
                storage := storage b |}
      else None
  | Settles i result uuid date =>
      match inFlight b !! i with
      | Some r =>
          Some {| app := resume r uuid date result (app b);
                  inFlight := delete i (inFlight b);
                  storage := storage b |}
      | None => None
      end
  | Reload => Some (load MOCK_VIDEOS (storage b))
  end.

Fixpoint run (MOCK_VIDEOS : list Video) (b : Browser) (inputs : list Input)
  : option Browser :=
  match inputs with
  | [] => Some b
  | i :: inputs' =>
      match step MOCK_VIDEOS b i with
      | Some b' => run MOCK_VIDEOS b' inputs'
      | None => None
      end
  end.

(** The three modal conditions the specification names. *)
Definition editing (s : State) : bool :=
  match editingVideo s with Some _ => true | None => false end.

Definition playing (s : State) : bool :=
  isPlaying s && match playingVideo s with Some _ => true | None => false end.

Definition saving (s : State) : bool := isSaving s.

(* ===================================================================== *)
(** ** components/HistoryPage.tsx *)
(* ===================================================================== *)

(** Arrays are objects: a heap maps array references to their elements. *)
Abbreviation Heap := (gmap positive (list HistoryVideo)).

(** The props of one [HistoryCard] element and its [key]. *)
Record HistoryCardElement := mkCard {
  key : jsstring;
  cardVideo : HistoryVideo;
  isLoading : bool;
}.

Inductive HistoryPageView :=
  | NoVideosGeneratedYet
  | CardList (cards : list HistoryCardElement).

(** The comparator [(a, b) => b.createdAt.getTime() - a.createdAt.getTime()]. *)
Definition newestFirst (a b : HistoryVideo) : Z :=
  (createdAt b - createdAt a)%Z.

(** [Array.prototype.sort] with a comparator. The language fixes its result
    for a consistent comparator: the stable sort, which insertion from the
    right computes. *)
Fixpoint sortedInsert {A} (cmp : A -> A -> Z) (x : A) (l : list A) : list A :=
  match l with
  | [] => [x]
  | y :: l' =>
      if (cmp x y <=? 0)%Z then x :: y :: l' else y :: sortedInsert cmp x l'
  end.

Fixpoint Array_sort {A} (cmp : A -> A -> Z) (l : list A) : list A :=
  match l with
  | [] => []
  | x :: l' => sortedInsert cmp x (Array_sort cmp l')
  end.

(** [HistoryPage]: the view it returns and the heap it leaves; [None] when
    [videos] is not an array of the heap. *)
Definition HistoryPage (h : Heap) (videos : positive)
    (loadingVideoId : option jsstring) : option (HistoryPageView * Heap) :=
  match h !! videos with
  | None => None
  | Some elements =>
      if (length elements =? 0)%nat then Some (NoVideosGeneratedYet, h)
      else
        (* [...videos] allocates a new array *)
        let copy := fresh (dom h) in
        let h1 := <[copy := elements]> h in
        (* [.sort(...)] sorts that array in place and returns it *)
        let h2 := alter (Array_sort newestFirst) copy h1 in
        match h2 !! copy with
        | None => None
        | Some sortedVideos =>
            Some (CardList
                    (List.map
                       (fun video : HistoryVideo =>
                          {| key := id video;
                             cardVideo := video;
                             isLoading :=
                               bool_decide (loadingVideoId = Some (id video)) |})
                       sortedVideos),
                  h2)
        end
  end.

(* ===================================================================== *)
(** ** Vocabulary for the statements *)
(* ===================================================================== *)

(** The parameters [generateVideoFromText] submits for a prompt. *)
Definition submitted (prompt : jsstring) : GenerateVideosParameters :=
  {| model := VEO_MODEL_NAME;
     prompt := prompt;
     config := {| numberOfVideos := 1; aspectRatio := lit "16:9" |} |}.

(** The calls of one turn of the polling loop. *)
Definition pollCalls (operation : Operation) : list Event :=
  [ EvSetTimeout 10000;
    EvLog [lit "...Generating..."];
    EvGetVideosOperation operation ].

(** The number of polls in a trace. *)
Definition isPoll (ev : Event) : bool :=
  match ev with EvGetVideosOperation _ => true | _ => false end.

Definition pollsMade (t : list Event) : nat := length (List.filter isPoll t).

(** The number of job submissions in a trace. *)
Definition isSubmit (ev : Event) : bool :=
  match ev with EvGenerateVideos _ => true | _ => false end.

Definition submissions (t : list Event) : nat :=
  length (List.filter isSubmit t).

(** The calls of a generation that goes through, in order: the job is
    created, every operation that is not done is polled, and every
    generated video is fetched. *)
Definition generationCalls (p : jsstring) (ops : list Operation)
    (results : list (jsstring * option jsstring)) : list Event :=
  [EvGenerateVideos (submitted p)]
  ++ flat_map pollCalls ops
  ++ List.map (fun r => EvFetch (fst r)) results.

(** [Polls w k op ops r]: from operation [op], with [k] polls made before,
    the remote job answers the polls of the operations [ops], one each, and
    then the loop is over: with a done operation ([r = inr _]) or with the
    rejection of the last poll ([r = inl _]). *)
Inductive Polls (w : World)
  : nat -> Operation -> list Operation -> JsError + Operation -> Prop :=
  | Polls_done k op :
      done op = true ->
      Polls w k op [] (inr op)
  | Polls_rejected k op e :
      done op = false ->
      getVideosOperation w k op = inl e ->
      Polls w k op [op] (inl e)
  | Polls_next k op op' ops r :
      done op = false ->
      getVideosOperation w k op = inr op' ->
      Polls w (S k) op' ops r ->
      Polls w k op (op :: ops) r.

(** How a settled reply shows as an outcome. *)
Definition outcomeOf {A} (r : JsError + A) : Outcome A :=
  match r with inl e => Rejected e | inr a => Fulfilled a end.

(** [Downloads w g target src]: the generated video [g] is fetched from
    [target] and read back as the base64 text [src]. *)
Inductive Downloads (w : World) (g : GeneratedVideo)
  : jsstring -> option jsstring -> Prop :=
  | Downloads_intro v url res blob dataUrl :
      video g = Some v ->
      decodeURIComponent w (interpolate (uri v)) = Some url ->
      fetch w (url ++ lit "&key=" ++ interpolate (API_KEY w)) = inr res ->
      ok res = true ->
      body res = inr blob ->
      readAsDataURL w blob = Some dataUrl ->
      Downloads w g (url ++ lit "&key=" ++ interpolate (API_KEY w))
                (split 44 dataUrl !! 1%nat).

(** Two worlds that differ in the API key only: every reply is the same,
    the reply to a fetch being compared at the URLs that carry the
    respective key. *)
Record SameButKey (w1 w2 : World) : Prop := mkSameButKey {
  same_generateVideos :
    forall p, generateVideos w1 p = generateVideos w2 p;
  same_getVideosOperation :
    forall k op, getVideosOperation w1 k op = getVideosOperation w2 k op;
  same_decodeURIComponent :
    forall u, decodeURIComponent w1 u = decodeURIComponent w2 u;
  same_fetch :
    forall url,
      fetch w1 (url ++ lit "&key=" ++ interpolate (API_KEY w1))
      = fetch w2 (url ++ lit "&key=" ++ interpolate (API_KEY w2));
  same_readAsDataURL :
    forall b, readAsDataURL w1 b = readAsDataURL w2 b;
  same_settledAt :
    forall url,
      settledAt w1 (url ++ lit "&key=" ++ interpolate (API_KEY w1))
      = settledAt w2 (url ++ lit "&key=" ++ interpolate (API_KEY w2));
  same_randomUUID : randomUUID w1 = randomUUID w2;
  same_now : now w1 = now w2;
}.

(** Two calls that differ at most in the key a fetch URL ends with. *)
Inductive SameCall (k1 k2 : jsstring) : Event -> Event -> Prop :=
  | SameCall_fetch url :
      SameCall k1 k2 (EvFetch (url ++ lit "&key=" ++ k1))
                     (EvFetch (url ++ lit "&key=" ++ k2))
  | SameCall_log args : SameCall k1 k2 (EvLog args) (EvLog args)
  | SameCall_error label e :
      SameCall k1 k2 (EvConsoleError label e) (EvConsoleError label e)
  | SameCall_generate params :
      SameCall k1 k2 (EvGenerateVideos params) (EvGenerateVideos params)
  | SameCall_timeout ms : SameCall k1 k2 (EvSetTimeout ms) (EvSetTimeout ms)
  | SameCall_poll op :
      SameCall k1 k2 (EvGetVideosOperation op) (EvGetVideosOperation op).

(** Two runs that end alike and whose calls differ at most in the key. *)
Definition AlikeButKey (k1 k2 : jsstring) {A} (m1 m2 : Async A) : Prop :=
  fst m1 = fst m2 /\ Forall2 (SameCall k1 k2) (snd m1) (snd m2).

(** Newest first: the order [HistoryPage] shows. *)
Definition notOlder (a b : HistoryVideo) : Prop :=
  (createdAt b <= createdAt a)%Z.

(** The card [HistoryPage] renders for a video. *)
Definition cardOf (loadingVideoId : option jsstring) (video : HistoryVideo)
  : HistoryCardElement :=
  {| key := id video;
     cardVideo := video;
     isLoading := bool_decide (loadingVideoId = Some (id video)) |}.

(** The page serializes generations: nothing is in flight and [isSaving]
    is false, or one request is in flight and [isSaving] is true. *)
Definition Serialized (b : Browser) : Prop :=
  (inFlight b = [] /\ isSaving (app b) = false)
  \/ (exists r, inFlight b = [r] /\ isSaving (app b) = true).

(** How the modal cells of the state go together. *)
Definition ModalCoherent (s : State) : Prop :=
  (editingVideo s <> None ->
   isSaving s = false /\ isPlaying s = false /\ playingVideo s = None)
  /\ (isPlaying s = true <-> playingVideo s <> None).

(* ===================================================================== *)
(** ** Sample worlds and states *)
(* ===================================================================== *)

Module Sample.

Definition running : Operation :=
  {| name := lit "operations/1"; done := false; response := None |}.

Definition finished : Operation :=
  {| name := lit "operations/1";
     done := true;
     response :=
       Some {| generatedVideos :=
                 Some [ {| video := Some {| uri := Some (lit "https://v.example/1?alt=media") |} |} ] |} |}.

Definition finishedEmpty : Operation :=
  {| name := lit "operations/1";
     done := true;
     response := Some {| generatedVideos := Some [] |} |}.

Definition okResponse : Response :=
  {| ok := true; status := 200; statusText := lit "OK"; body := inr 7 |}.

Definition forbidden : Response :=
  {| ok := false; status := 403; statusText := lit "Forbidden";
     body := inr 0 |}.

(** A job that is done at the third poll and whose video downloads. The
    URIs of the sample worlds hold no escape, so decoding leaves them
    as they are. *)
Definition world (key : option jsstring) : World :=
  {| API_KEY := key;
     generateVideos := fun _ => inr running;
     getVideosOperation :=
       fun k _ => if (k <? 2)%nat then inr running else inr finished;
     decodeURIComponent := Some;
     fetch := fun _ => inr okResponse;
     readAsDataURL := fun _ => Some (lit "data:video/mp4;base64,AAAAIGZ0eXA=");
     settledAt := fun _ => 0;
     randomUUID := lit "3b241101-e2bb-4255-8caf-4136c566a962";
     now := 1700000000000%Z |}.

(** The same job, with a video whose blob cannot be read. *)
Definition unreadable : World :=
  {| API_KEY := Some (lit "k");
     generateVideos := fun _ => inr running;
     getVideosOperation :=
       fun k _ => if (k <? 2)%nat then inr running else inr finished;
     decodeURIComponent := Some;
     fetch := fun _ => inr okResponse;
     readAsDataURL := fun _ => None;
     settledAt := fun _ => 0;
     randomUUID := [];
     now := 0%Z |}.

(** A job done at once with two videos: the first is answered 403, the
    second has no [video] at all. *)
Definition twoFailures : World :=
  {| API_KEY := Some (lit "k");
     generateVideos :=
       fun _ =>
         inr {| name := lit "operations/2";
                done := true;
                response :=
                  Some {| generatedVideos :=
                            Some [ {| video := Some {| uri := Some (lit "https://v.example/1?alt=media") |} |};
                                   {| video := None |} ] |} |};
     getVideosOperation := fun _ _ => inr running;
     decodeURIComponent := Some;
     fetch := fun _ => inr forbidden;
     readAsDataURL := fun _ => Some [];
     settledAt := fun _ => 0;
     randomUUID := [];
     now := 0%Z |}.

(** A job that never reports done. *)
Definition neverDone : World :=
  {| API_KEY := Some (lit "k");
     generateVideos := fun _ => inr running;
     getVideosOperation := fun _ _ => inr running;
     decodeURIComponent := Some;
     fetch := fun _ => inr okResponse;
     readAsDataURL := fun _ => Some [];
     settledAt := fun _ => 0;
     randomUUID := [];
     now := 0%Z |}.

(** A job that cannot be created. *)
Definition refused : World :=
  {| API_KEY := None;
     generateVideos := fun _ => inl (External (lit "API key not valid"));
     getVideosOperation := fun _ _ => inr running;
     decodeURIComponent := Some;
     fetch := fun _ => inr okResponse;
     readAsDataURL := fun _ => Some [];
     settledAt := fun _ => 0;
     randomUUID := [];
     now := 0%Z |}.

Definition clip : Video :=
  {| id := lit "1";
     videoUrl := lit "https://v.example/koala.mp4";
     title := lit "Koala";
     description := lit "A koala riding a motorcycle" |}.

Definition older : HistoryVideo := {| toVideo := clip; createdAt := 10%Z |}.
Definition newer : HistoryVideo := {| toVideo := clip; createdAt := 30%Z |}.
Definition middle : HistoryVideo := {| toVideo := clip; createdAt := 20%Z |}.

(** The state after the prompt box was filled in on a fresh page. *)
Definition prompted : State :=
  setNewVideoPrompt (lit "  a koala ") (initialState [clip]).

(** The state while [clip] is open in the edit page. *)
Definition editingClip : State :=
  handleStartEdit clip (handlePlayVideo clip (initialState [clip])).

(** A session: type a prompt, generate, and the request is fulfilled. *)
Definition session : list Input :=
  [ User (OnChangePrompt (lit "a koala"));
    User OnGenerate;
    Settles 0 (inr [Some (lit "AAAAIGZ0eXA=")])
            (lit "3b241101-e2bb-4255-8caf-4136c566a962") 1700000000000%Z ].

(** A session that stops while the request is in flight. *)
Definition waiting : list Input :=
  [ User (OnChangePrompt (lit "a koala")); User OnGenerate ].

End Sample.

(* ===================================================================== *)
(** ** components/VideoPlayer.tsx and components/HistoryCard.tsx *)
(* ===================================================================== *)

(** What the two components use of the browser. *)
Module Web.

(** The object handed to [navigator.share]. *)
Module ShareData.
Record t := mk {
  title : jsstring;
  text : jsstring;
  url : jsstring;
}.
End ShareData.

(** How the promise of [navigator.share] settles; a rejection carries the
    [name] of the error. *)
Inductive ShareOutcome :=
  | Shared
  | ShareRejected (name : jsstring).

(** [share] is [None] in a browser without [navigator.share]; [clipboard]
    is [None] in a page without [navigator.clipboard], and otherwise tells
    whether [navigator.clipboard.writeText(url)] resolves; [href] is
    [window.location.href]. *)
Record Navigator := mkNavigator {
  share : option (ShareData.t -> ShareOutcome);
  clipboard : option (jsstring -> bool);
  href : jsstring;
}.

(** The calls of [handleShare] and [handleDownload]. The callback of every
    timer these handlers set is [() => setShareFeedback('')]. *)
Inductive Call :=
  | StopPropagation                         (* e.stopPropagation() *)
  | NavigatorShare (data : ShareData.t)     (* navigator.share *)
  | ClipboardWriteText (url : jsstring)     (* navigator.clipboard.writeText *)
  | ConsoleError (label : jsstring)         (* console.error *)
  | SetTimeoutClearFeedback (ms : N)        (* setTimeout(() => setShareFeedback(''), ms) *)
  | CreateElement (tag : jsstring)          (* document.createElement *)
  | SetHref (url : jsstring)                (* link.href = *)
  | SetDownload (fileName : jsstring)       (* link.download = *)
  | AppendChild                             (* document.body.appendChild(link) *)
  | Click                                   (* link.click() *)
  | RemoveChild.                            (* document.body.removeChild(link) *)

(** [s.startsWith(prefix)] *)
Fixpoint startsWith (prefix s : jsstring) : bool :=
  match prefix, s with
  | [], _ => true
  | _ :: _, [] => false
  | p :: prefix', c :: s' => (p =? c) && startsWith prefix' s'
  end.

(** The class [\w]: ASCII letters, digits and the underscore. *)
Definition isWordChar (c : N) : bool :=
  ((0x30 <=? c) && (c <=? 0x39))
  || ((0x41 <=? c) && (c <=? 0x5A))
  || (c =? 0x5F)
  || ((0x61 <=? c) && (c <=? 0x7A)).

(** The class [\s] is the white space [trim] strips: [isWhiteSpace]. *)

(** [s.replace(/[^\w\s]/gi, '')]: without the [u] flag the pattern is
    matched against each code unit, and ignoring case adds nothing to
    [\w] or [\s]. *)
Definition removeOtherThanWordAndSpace (s : jsstring) : jsstring :=
  List.filter (fun c => isWordChar c || isWhiteSpace c) s.

(** [s.replace(/ /g, '_')] *)
Definition spacesToUnderscores (s : jsstring) : jsstring :=
  List.map (fun c => if c =? 0x20 then 0x5F else c) s.


End Web.

Module VideoPlayer.

(** The [fileName] of [handleDownload]. *)
Definition fileName (video : Video) : jsstring :=
  Web.spacesToUnderscores (Web.removeOtherThanWordAndSpace (title video))
  ++ lit ".mp4".

Definition handleDownload (video : Video) : list Web.Call :=
  [ Web.CreateElement (lit "a");
    Web.SetHref (videoUrl video);
    Web.SetDownload (fileName video);
    Web.AppendChild;
    Web.Click;
    Web.RemoveChild ].

(** [handleShare]: the [shareFeedback] it leaves and the calls it makes. *)
Definition handleShare (nav : Web.Navigator) (video : Video)
    (shareFeedback : jsstring) : jsstring * list Web.Call :=
  let urlToShare :=
    if Web.startsWith (lit "http") (videoUrl video) then videoUrl video
    else Web.href nav in
  let shareData :=
    {| Web.ShareData.title := title video;
       Web.ShareData.text := description video;
       Web.ShareData.url := urlToShare |} in
  match Web.share nav with
  | Some navigatorShare =>
      match navigatorShare shareData with
      | Web.Shared => (shareFeedback, [Web.NavigatorShare shareData])
      | Web.ShareRejected name =>
          if bool_decide (name <> lit "AbortError") then
            (shareFeedback,
             [Web.NavigatorShare shareData; Web.ConsoleError (lit "Error sharing:")])
          else (shareFeedback, [Web.NavigatorShare shareData])
      end
  | None =>
      match Web.clipboard nav with
      | Some writeText =>
          if writeText urlToShare then
            (lit "Link Copied!",
             [Web.ClipboardWriteText urlToShare;
              Web.SetTimeoutClearFeedback 2000])
          else
            (lit "Failed to copy",
             [Web.ClipboardWriteText urlToShare;
              Web.ConsoleError (lit "Failed to copy:");
              Web.SetTimeoutClearFeedback 2000])
      | None =>
          (* reading [writeText] of [undefined] throws inside the [try] *)
          (lit "Failed to copy",
           [Web.ConsoleError (lit "Failed to copy:");
            Web.SetTimeoutClearFeedback 2000])
      end
  end.

End VideoPlayer.

Module HistoryCard.

(** [handleShare] of the card: it first keeps the click from the card. *)
Definition handleShare (nav : Web.Navigator) (video : HistoryVideo)
    (shareFeedback : jsstring) : jsstring * list Web.Call :=
  let urlToShare :=
    if Web.startsWith (lit "http") (videoUrl video) then videoUrl video
    else Web.href nav in
  let shareData :=
    {| Web.ShareData.title := title video;
       Web.ShareData.text := description video;
       Web.ShareData.url := urlToShare |} in
  match Web.share nav with
  | Some navigatorShare =>
      match navigatorShare shareData with
      | Web.Shared =>
          (shareFeedback, [Web.StopPropagation; Web.NavigatorShare shareData])
      | Web.ShareRejected name =>
          if bool_decide (name <> lit "AbortError") then
            (shareFeedback,
             [Web.StopPropagation; Web.NavigatorShare shareData;
              Web.ConsoleError (lit "Error sharing:")])
          else
            (shareFeedback, [Web.StopPropagation; Web.NavigatorShare shareData])
      end
  | None =>
      match Web.clipboard nav with
      | Some writeText =>
          if writeText urlToShare then
            (lit "Link Copied!",
             [Web.StopPropagation; Web.ClipboardWriteText urlToShare;
              Web.SetTimeoutClearFeedback 2000])
          else
            (lit "Failed to copy",
             [Web.StopPropagation; Web.ClipboardWriteText urlToShare;
              Web.ConsoleError (lit "Failed to copy:");
              Web.SetTimeoutClearFeedback 2000])
      | None =>
          (* reading [writeText] of [undefined] throws inside the [try] *)
          (lit "Failed to copy",
           [Web.StopPropagation;
            Web.ConsoleError (lit "Failed to copy:");
            Web.SetTimeoutClearFeedback 2000])
      end
  end.

End HistoryCard.

(* ===================================================================== *)
(** ** More vocabulary *)
(* ===================================================================== *)

(** Telling the calls apart. *)
Definition isFetch (ev : Event) : bool :=
  match ev with EvFetch _ => true | _ => false end.

Definition isStorageWrite (ev : Event) : bool :=
  match ev with EvStorageSetItem _ _ => true | _ => false end.

(** What the calls of a run do to the persistent storage: only
    [localStorage.setItem] changes it. *)
Definition perform (ev : Event) (stored : list (jsstring * jsstring))
  : list (jsstring * jsstring) :=
  match ev with
  | EvStorageSetItem key value =>
      (key, value)
        :: List.filter (fun kv => negb (bool_decide (fst kv = key))) stored
  | _ => stored
  end.

Definition replay (t : list Event) (stored : list (jsstring * jsstring))
  : list (jsstring * jsstring) :=
  fold_left (fun st ev => perform ev st) t stored.

(** [Decodes w g url]: the generated video [g] has a URI that decodes to
    [url] ([undefined] being read as the text it is written as). *)
Definition Decodes (w : World) (g : GeneratedVideo) (url : jsstring) : Prop :=
  exists v,
    video g = Some v
    /\ decodeURIComponent w (interpolate (uri v)) = Some url.

(** The URL the handlers give a generated video. *)
Definition isGeneratedUrl (u : jsstring) : Prop :=
  exists src, u = lit "data:video/mp4;base64," ++ src.

(** The gallery holds the generated videos, newest generation first, and
    then the videos it was loaded with. *)
Definition GalleryCoherent (MOCK_VIDEOS : list Video) (s : State) : Prop :=
  videos s = List.map toVideo (generatedVideosHistory s) ++ MOCK_VIDEOS
  /\ Forall (fun hv : HistoryVideo => isGeneratedUrl (videoUrl hv))
            (generatedVideosHistory s).

(** The spinner and the error go with the modal cells. *)
Definition IndicatorsCoherent (s : State) : Prop :=
  (loadingVideoId s <> None -> isPlaying s = true)
  /\ (isSaving s = true -> generationError s = None).

(** No white space at either end. *)
Definition Trimmed (p : jsstring) : Prop :=
  (forall c rest, p = c :: rest -> isWhiteSpace c = false)
  /\ (forall c front, p = front ++ [c] -> isWhiteSpace c = false).

(** A world whose reader hands back a result without a comma. *)
Definition commaless : World :=
  {| API_KEY := Some (lit "k");
     generateVideos := fun _ => inr Sample.finished;
     getVideosOperation := fun _ _ => inr Sample.finished;
     decodeURIComponent := Some;
     fetch := fun _ => inr Sample.okResponse;
     readAsDataURL := fun _ => Some (lit "data:");
     settledAt := fun _ => 0;
     randomUUID := lit "u";
     now := 0%Z |}.

(* ===================================================================== *)
(** ** Strings *)
(* ===================================================================== *)

Lemma trimStart_whitespace (p : jsstring) :
  Forall (fun c => isWhiteSpace c = true) p -> trimStart p = [].
Proof.
  induction 1 as [|c p Hc _ IH]; simpl; [reflexivity|].
  now rewrite Hc.
Qed.

Lemma trim_whitespace (p : jsstring) :
  Forall (fun c => isWhiteSpace c = true) p -> trim p = [].
Proof.
  intros Hp. unfold trim, trimEnd.
  now rewrite (trimStart_whitespace p Hp).
Qed.

Example trim_sample : trim (lit "  a koala ") = lit "a koala".
Proof. reflexivity. Qed.

Example split_sample :
  split 44 (lit "data:video/mp4;base64,AAAA") !! 1%nat = Some (lit "AAAA").
Proof. reflexivity. Qed.

Example split_no_comma : split 44 (lit "data") !! 1%nat = None.
Proof. reflexivity. Qed.

(* ===================================================================== *)
(** ** The polling loop *)
(* ===================================================================== *)

Lemma pollLoop_done fuel w k op :
  done op = true -> pollLoop fuel w k op = (Fulfilled op, []).
Proof. intros Hd. destruct fuel; simpl; now rewrite Hd. Qed.

Lemma pollLoop_out_of_fuel w k op :
  done op = false -> pollLoop 0 w k op = (Pending, []).
Proof. intros Hd. simpl. now rewrite Hd. Qed.

Lemma pollLoop_rejected fuel w k op e :
  done op = false ->
  getVideosOperation w k op = inl e ->
  pollLoop (S fuel) w k op = (Rejected e, pollCalls op).
Proof. intros Hd He. simpl. now rewrite Hd, He. Qed.

Lemma pollLoop_next fuel w k op op' :
  done op = false ->
  getVideosOperation w k op = inr op' ->
  pollLoop (S fuel) w k op
  = (fst (pollLoop fuel w (S k) op'),
     pollCalls op ++ snd (pollLoop fuel w (S k) op')).
Proof.
  intros Hd Hr. simpl. rewrite Hd, Hr. simpl.
  now destruct (pollLoop fuel w (S k) op') as [[a|e|] t].
Qed.

(** When the job ends, the loop ends with it, having polled each operation
    once. *)
Lemma pollLoop_Polls w k op ops r :
  Polls w k op ops r ->
  forall fuel, (length ops <= fuel)%nat ->
  pollLoop fuel w k op = (outcomeOf r, flat_map pollCalls ops).
Proof.
  induction 1 as [k op Hd | k op e Hd He | k op op' ops r Hd Hr _ IH];
    intros fuel Hfuel.
  - now apply pollLoop_done.
  - destruct fuel as [|fuel]; [simpl in Hfuel; lia|].
    now rewrite (pollLoop_rejected fuel w k op e Hd He).
  - destruct fuel as [|fuel]; [simpl in Hfuel; lia|].
    rewrite (pollLoop_next fuel w k op op' Hd Hr).
    rewrite IH by (simpl in Hfuel; lia). reflexivity.
Qed.

Lemma pollsMade_app t1 t2 : pollsMade (t1 ++ t2) = (pollsMade t1 + pollsMade t2)%nat.
Proof. unfold pollsMade. now rewrite List.filter_app, length_app. Qed.

Lemma pollsMade_pollCalls ops : pollsMade (flat_map pollCalls ops) = length ops.
Proof.
  induction ops as [|op ops IH]; [reflexivity|].
  change (flat_map pollCalls (op :: ops))
    with (pollCalls op ++ flat_map pollCalls ops).
  rewrite pollsMade_app, IH. reflexivity.
Qed.

(** When the job never ends, the loop uses every poll it is given. *)
Lemma pollLoop_never w fuel :
  forall k op,
    (forall ops r, ~ Polls w k op ops r) ->
    fst (pollLoop fuel w k op) = Pending
    /\ pollsMade (snd (pollLoop fuel w k op)) = fuel.
Proof.
  induction fuel as [|fuel IH]; intros k op Hnever.
  - destruct (done op) eqn:Hd.
    + exfalso. exact (Hnever [] (inr op) (Polls_done w k op Hd)).
    + now rewrite (pollLoop_out_of_fuel w k op Hd).
  - destruct (done op) eqn:Hd.
    + exfalso. exact (Hnever [] (inr op) (Polls_done w k op Hd)).
    + destruct (getVideosOperation w k op) as [e|op'] eqn:Hr.
      * exfalso. exact (Hnever [op] (inl e) (Polls_rejected w k op e Hd Hr)).
      * rewrite (pollLoop_next fuel w k op op' Hd Hr). cbn [fst snd].
        destruct (IH (S k) op') as [Ho Hn].
        { intros ops r HP.
          exact (Hnever (op :: ops) r (Polls_next w k op op' ops r Hd Hr HP)). }
        split; [exact Ho|].
        rewrite pollsMade_app, Hn. reflexivity.
Qed.

Lemma neverDone_pending fuel :
  forall k, fst (pollLoop fuel Sample.neverDone k Sample.running) = Pending.
Proof.
  induction fuel as [|fuel IH]; intros k; [reflexivity|].
  rewrite (pollLoop_next fuel Sample.neverDone k Sample.running Sample.running);
    [|reflexivity|reflexivity].
  apply IH.
Qed.

Lemma sample_Polls key :
  Polls (Sample.world key) 0 Sample.running
        [Sample.running; Sample.running; Sample.running] (inr Sample.finished).
Proof.
  apply (Polls_next _ 0 _ Sample.running); [reflexivity|reflexivity|].
  apply (Polls_next _ 1 _ Sample.running); [reflexivity|reflexivity|].
  apply (Polls_next _ 2 _ Sample.finished); [reflexivity|reflexivity|].
  apply Polls_done. reflexivity.
Defined.

(** C2, as stated, fails: a job that keeps answering "not done" is polled
    for as long as the run goes on. *)
Lemma polling_has_no_bound :
  ~ (forall (w : World) (op : Operation),
       exists fuel, fst (pollLoop fuel w 0 op) <> Pending).
Proof.
  intros H. destruct (H Sample.neverDone Sample.running) as [fuel Hfuel].
  apply Hfuel. apply neverDone_pending.
Qed.

(** C2 (amended): the loop has no bound of its own. It ends exactly when the
    job ends: if the job answers the polls of [ops] and then is done, or
    rejects the last of them, the loop makes exactly these polls, one per
    operation, and ends with the done operation or with that rejection,
    which is not retried; if the job never ends, the loop is still pending
    after any number of polls. *)
Theorem pollLoop_follows_the_job (w : World) (op0 : Operation) :
  (forall ops r fuel,
      Polls w 0 op0 ops r ->
      (length ops <= fuel)%nat ->
      pollLoop fuel w 0 op0 = (outcomeOf r, flat_map pollCalls ops)
      /\ pollsMade (snd (pollLoop fuel w 0 op0)) = length ops)
  /\ ((forall ops r, ~ Polls w 0 op0 ops r) ->
      forall fuel,
        fst (pollLoop fuel w 0 op0) = Pending
        /\ pollsMade (snd (pollLoop fuel w 0 op0)) = fuel).
Proof.
  split.
  - intros ops r fuel HP Hfuel.
    rewrite (pollLoop_Polls w 0 op0 ops r HP fuel Hfuel).
    split; [reflexivity|]. apply pollsMade_pollCalls.
  - intros Hnever fuel. now apply pollLoop_never.
Qed.

Lemma pollLoop_follows_the_job_witness :
  pollLoop 5 (Sample.world None) 0 Sample.running
  = (Fulfilled Sample.finished,
     flat_map pollCalls [Sample.running; Sample.running; Sample.running])
  /\ pollsMade (snd (pollLoop 5 (Sample.world None) 0 Sample.running)) = 3%nat.
Proof.
  apply (proj1 (pollLoop_follows_the_job (Sample.world None) Sample.running)
               [Sample.running; Sample.running; Sample.running]
               (inr Sample.finished) 5%nat).
  - apply sample_Polls.
  - simpl. lia.
Defined.

(* ===================================================================== *)
(** ** generateVideoFromText *)
(* ===================================================================== *)

Lemma fetchGeneratedVideo_Downloads w g target src :
  Downloads w g target src ->
  fetchGeneratedVideo w g = (Fulfilled src, [EvFetch target]).
Proof.
  intros [v url res blob dataUrl Hv Hurl Hres Hok Hbody Hread].
  unfold fetchGeneratedVideo, bloblToBase64.
  rewrite Hv. cbn [bind ret]. rewrite Hurl. cbn [bind ret emit].
  rewrite Hres. cbn [bind emit settle ret].
  rewrite Hok, Hbody. cbn [negb bind settle ret]. rewrite Hread. reflexivity.
Qed.

Lemma Promise_all_fst {A} (ps : list (Started A)) :
  fst (Promise_all ps)
  = match firstRejection ps with
    | Some (_, e) => Rejected e
    | None =>
        match fulfilledValues ps with
        | Some l => Fulfilled l
        | None => Pending
        end
    end.
Proof. reflexivity. Qed.

Lemma Promise_all_snd {A} (ps : list (Started A)) :
  snd (Promise_all ps) = concat (List.map (fun p : Started A => snd (snd p)) ps).
Proof. reflexivity. Qed.

Lemma firstRejection_None {A} (ps : list (Started A)) :
  firstRejection ps = None
  <-> Forall (fun p : Started A => forall e, fst (snd p) <> Rejected e) ps.
Proof.
  induction ps as [|[t [o tr]] ps IH]; cbn [firstRejection].
  - split; [constructor|reflexivity].
  - destruct o as [a|e|].
    + rewrite IH. split.
      * intros H. constructor; [discriminate|exact H].
      * intros H. now inversion H.
    + split.
      * destruct (firstRejection ps) as [[t' e']|];
          [destruct (before t' t)|]; discriminate.
      * intros H. inversion H as [|? ? Hhd _]. cbn in Hhd. now destruct (Hhd e).
    + rewrite IH. split.
      * intros H. constructor; [discriminate|exact H].
      * intros H. now inversion H.
Qed.

Lemma fulfilledValues_Some {A} (ps : list (Started A)) l :
  fulfilledValues ps = Some l
  <-> Forall2 (fun (p : Started A) a => fst (snd p) = Fulfilled a) ps l.
Proof.
  revert l. induction ps as [|[t [o tr]] ps IH]; intros l; cbn [fulfilledValues].
  - split; [intros [= <-]; constructor|intros H; now inversion H].
  - destruct o as [a|e|].
    + destruct (fulfilledValues ps) as [l'|] eqn:Hl; cbn [option_map]; split.
      * intros [= <-]. constructor; [reflexivity|now apply IH].
      * intros H. inversion H as [|? a' ? l'' Hhd Htl]; subst.
        cbn in Hhd. injection Hhd as <-.
        apply IH in Htl. now injection Htl as <-.
      * discriminate.
      * intros H. inversion H as [|? a' ? l'' Hhd Htl]; subst.
        apply IH in Htl. discriminate.
    + split; [discriminate|]. intros H. inversion H as [|? ? ? ? Hhd _].
      discriminate Hhd.
    + split; [discriminate|]. intros H. inversion H as [|? ? ? ? Hhd _].
      discriminate Hhd.
Qed.

Lemma Forall2_fulfilled_not_rejected {A} (ps : list (Started A)) l :
  Forall2 (fun (p : Started A) a => fst (snd p) = Fulfilled a) ps l ->
  Forall (fun p : Started A => forall e, fst (snd p) <> Rejected e) ps.
Proof.
  induction 1 as [|p a ps l Hp _ IH]; constructor; [|exact IH].
  intros e. rewrite Hp. discriminate.
Qed.

Lemma Promise_all_Fulfilled {A} (ps : list (Started A)) l :
  fst (Promise_all ps) = Fulfilled l
  <-> Forall2 (fun (p : Started A) a => fst (snd p) = Fulfilled a) ps l.
Proof.
  rewrite Promise_all_fst. split.
  - destruct (firstRejection ps) as [[t e]|]; [discriminate|].
    destruct (fulfilledValues ps) as [l'|] eqn:Hl; [|discriminate].
    intros [= <-]. now apply fulfilledValues_Some.
  - intros H.
    rewrite (proj2 (firstRejection_None ps) (Forall2_fulfilled_not_rejected ps l H)).
    now rewrite (proj2 (fulfilledValues_Some ps l) H).
Qed.

Lemma Promise_all_Downloads w gvs (results : list (jsstring * option jsstring)) :
  Forall2 (fun g r => Downloads w g (fst r) (snd r)) gvs results ->
  Promise_all (List.map (startFetch w) gvs)
  = (Fulfilled (List.map snd results),
     List.map (fun r => EvFetch (fst r)) results).
Proof.
  intros Hall. apply injective_projections.
  - cbn [fst]. apply Promise_all_Fulfilled.
    induction Hall as [|g r gvs results Hg _ IH]; cbn [List.map]; constructor;
      [|exact IH].
    unfold startFetch. cbn [fst snd].
    now rewrite (fetchGeneratedVideo_Downloads w g (fst r) (snd r) Hg).
  - cbn [snd]. rewrite Promise_all_snd.
    induction Hall as [|g r gvs results Hg _ IH]; cbn [List.map concat];
      [reflexivity|].
    rewrite IH. unfold startFetch. cbn [snd].
    now rewrite (fetchGeneratedVideo_Downloads w g (fst r) (snd r) Hg).
Qed.

Lemma generateVideoFromText_fulfilled fuel w p op0 ops opn resp gvs results :
  generateVideos w (submitted p) = inr op0 ->
  Polls w 0 op0 ops (inr opn) ->
  (length ops <= fuel)%nat ->
  response opn = Some resp ->
  generatedVideos resp = Some gvs ->
  gvs <> [] ->
  Forall2 (fun g r => Downloads w g (fst r) (snd r)) gvs results ->
  generateVideoFromText fuel w p
  = (Fulfilled (List.map snd results), generationCalls p ops results).
Proof.
  intros Hcreate Hpolls Hfuel Hresp Hgvs Hne Hall.
  unfold generateVideoFromText, generationCalls.
  change (mkParams VEO_MODEL_NAME p (mkConfig 1 (lit "16:9"))) with (submitted p).
  rewrite Hcreate. cbn [bind emit settle ret].
  rewrite (pollLoop_Polls w 0 op0 ops (inr opn) Hpolls fuel Hfuel).
  cbn [outcomeOf bind]. rewrite Hresp, Hgvs.
  destruct gvs as [|g gvs]; [congruence|].
  rewrite (Promise_all_Downloads w (g :: gvs) results Hall).
  reflexivity.
Qed.

(** A callback that throws before its [await] is the rejection
    [Promise.all] gets first, also behind one that fails after its fetch. *)
Example rejection_before_the_await_comes_first :
  generateVideoFromText 0 Sample.twoFailures (lit "a koala")
  = (Rejected TypeError,
     [ EvGenerateVideos (submitted (lit "a koala"));
       EvFetch (lit "https://v.example/1?alt=media&key=k") ]).
Proof. reflexivity. Qed.

(** [generateVideoFromText] is never fulfilled with the empty array. *)
Lemma Promise_all_length {A} (ps : list (Started A)) l :
  fst (Promise_all ps) = Fulfilled l -> length l = length ps.
Proof.
  intros H. apply Promise_all_Fulfilled in H. symmetry.
  exact (Forall2_length _ _ _ H).
Qed.

Lemma bind_snd {A B} (m : Async A) (k : A -> Async B) :
  snd (bind m k)
  = snd m ++ match fst m with Fulfilled a => snd (k a) | _ => [] end.
Proof.
  destruct m as [[a|e|] t]; cbn; [now destruct (k a)|now rewrite app_nil_r..].
Qed.

Lemma bind_fst {A B} (m : Async A) (k : A -> Async B) :
  fst (bind m k)
  = match fst m with
    | Fulfilled a => fst (k a)
    | Rejected e => Rejected e
    | Pending => Pending
    end.
Proof. destruct m as [[a|e|] t]; cbn; [now destruct (k a)|reflexivity..]. Qed.

Lemma bind_fulfilled {A B} (m : Async A) (k : A -> Async B) b :
  fst (bind m k) = Fulfilled b ->
  exists a, fst m = Fulfilled a /\ fst (k a) = Fulfilled b.
Proof.
  destruct m as [[a|e|] t]; simpl; try discriminate.
  destruct (k a) as [o t'] eqn:Hk. simpl. intros ->.
  exists a. now rewrite Hk.
Qed.

Lemma generateVideoFromText_nonempty fuel w p l :
  fst (generateVideoFromText fuel w p) = Fulfilled l -> l <> [].
Proof.
  unfold generateVideoFromText. intros H.
  apply bind_fulfilled in H as [_ [_ H]].
  apply bind_fulfilled in H as [op0 [_ H]].
  apply bind_fulfilled in H as [opn [_ H]].
  destruct (response opn) as [resp|]; [|discriminate].
  destruct (generatedVideos resp) as [[|g gvs]|]; try discriminate.
  apply Promise_all_length in H. destruct l; [discriminate|congruence].
Qed.

(* ===================================================================== *)
(** ** The two generating handlers *)
(* ===================================================================== *)

Lemma awaitGeneration_fulfilled fuel w greeting p started resume l t :
  generateVideoFromText fuel w p = (Fulfilled l, t) ->
  awaitGeneration fuel w greeting p started resume
  = mkRun true (fst (resume (inr l) started))
          (EvLog [greeting; p] :: t ++ snd (resume (inr l) started)).
Proof.
  intros H. unfold awaitGeneration. rewrite H. cbn [bind emit].
  now destruct (resume (inr l) started).
Qed.

Lemma awaitGeneration_rejected fuel w greeting p started resume e t :
  generateVideoFromText fuel w p = (Rejected e, t) ->
  awaitGeneration fuel w greeting p started resume
  = mkRun true (fst (resume (inl e) started))
          (EvLog [greeting; p] :: t ++ snd (resume (inl e) started)).
Proof.
  intros H. unfold awaitGeneration. rewrite H. cbn [bind emit].
  now destruct (resume (inl e) started).
Qed.

Lemma awaitGeneration_pending fuel w greeting p started resume t :
  generateVideoFromText fuel w p = (Pending, t) ->
  awaitGeneration fuel w greeting p started resume
  = mkRun false started (EvLog [greeting; p] :: t).
Proof. intros H. unfold awaitGeneration. now rewrite H. Qed.

Lemma handleGenerateNewVideo_started fuel w s :
  trim (newVideoPrompt s) <> [] ->
  handleGenerateNewVideo fuel w s
  = awaitGeneration fuel w (lit "Generating video from new prompt...")
      (trim (newVideoPrompt s)) (handleGenerateNewVideo_start s)
      (handleGenerateNewVideo_resume (randomUUID w) (now w)
                                     (trim (newVideoPrompt s))).
Proof.
  intros Hp. unfold handleGenerateNewVideo.
  destruct (trim (newVideoPrompt s)); [congruence|reflexivity].
Qed.

(** C1: a generation that goes through makes exactly these calls, in this
    order: the prompt is submitted to create the job, the job is polled
    until it reports done, and the videos are fetched and read back as
    base64; then one new record, whose URL is the base64 data URL of the
    first video, is put in front of the video list and of the history, by
    [handleSaveEdit] and by [handleGenerateNewVideo] alike. *)
Theorem generation_workflow
    (fuel : nat) (w : World) (p : jsstring)
    (op0 opn : Operation) (ops : list Operation)
    (resp : GenerateVideosResponse) (gvs : list GeneratedVideo)
    (target : jsstring) (src : option jsstring)
    (more : list (jsstring * option jsstring)) :
  generateVideos w (submitted p) = inr op0 ->
  Polls w 0 op0 ops (inr opn) ->
  (length ops <= fuel)%nat ->
  response opn = Some resp ->
  generatedVideos resp = Some gvs ->
  Forall2 (fun g r => Downloads w g (fst r) (snd r)) gvs ((target, src) :: more) ->
  let url := lit "data:video/mp4;base64," ++ interpolate src in
  (forall (originalVideo : Video) (s : State),
      description originalVideo = p ->
      let r := handleSaveEdit fuel w originalVideo s in
      exists newVideo,
        videoUrl newVideo = url
        /\ settled r = true
        /\ calls r = [EvLog [lit "Generating video..."; p]]
                     ++ generationCalls p ops ((target, src) :: more)
                     ++ [EvLog [lit "Generated video data received."]]
        /\ videos (final r) = newVideo :: videos s
        /\ generatedVideosHistory (final r)
           = {| toVideo := newVideo; createdAt := now w |}
               :: generatedVideosHistory s
        /\ generationError (final r) = None)
  /\ (forall (s : State),
      trim (newVideoPrompt s) = p ->
      p <> [] ->
      let r := handleGenerateNewVideo fuel w s in
      exists newVideo,
        videoUrl newVideo = url
        /\ settled r = true
        /\ calls r = [EvLog [lit "Generating video from new prompt..."; p]]
                     ++ generationCalls p ops ((target, src) :: more)
                     ++ [EvLog [lit "Generated video data received."]]
        /\ videos (final r) = newVideo :: videos s
        /\ generatedVideosHistory (final r)
           = {| toVideo := newVideo; createdAt := now w |}
               :: generatedVideosHistory s
        /\ generationError (final r) = None).
Proof.
  intros Hcreate Hpolls Hfuel Hresp Hgvs Hall url.
  assert (Hne : gvs <> []) by (inversion Hall; congruence).
  pose proof (generateVideoFromText_fulfilled fuel w p op0 ops opn resp gvs
                ((target, src) :: more) Hcreate Hpolls Hfuel Hresp Hgvs Hne Hall)
    as Hgen.
  split.
  - intros originalVideo s Hp r. subst r. unfold handleSaveEdit.
    rewrite Hp.
    rewrite (awaitGeneration_fulfilled _ _ _ _ _ _ _ _ Hgen).
    eexists. cbn. repeat split; reflexivity.
  - intros s Hp Hnonempty r. subst r.
    rewrite handleGenerateNewVideo_started by congruence.
    rewrite Hp.
    rewrite (awaitGeneration_fulfilled _ _ _ _ _ _ _ _ Hgen).
    eexists. cbn. repeat split; reflexivity.
Qed.

Lemma sample_Downloads key :
  Downloads (Sample.world key)
    {| video := Some {| uri := Some (lit "https://v.example/1?alt=media") |} |}
    (lit "https://v.example/1?alt=media" ++ lit "&key=" ++ interpolate key)
    (split 44 (lit "data:video/mp4;base64,AAAAIGZ0eXA=") !! 1%nat).
Proof.
  apply (Downloads_intro (Sample.world key) _
           {| uri := Some (lit "https://v.example/1?alt=media") |}
           (lit "https://v.example/1?alt=media") Sample.okResponse 7
           (lit "data:video/mp4;base64,AAAAIGZ0eXA=")); reflexivity.
Defined.

Lemma generation_workflow_witness :
  let w := Sample.world (Some (lit "K")) in
  let r := handleGenerateNewVideo 5 w Sample.prompted in
  exists newVideo,
    videoUrl newVideo = lit "data:video/mp4;base64,AAAAIGZ0eXA="
    /\ settled r = true
    /\ calls r
       = [EvLog [lit "Generating video from new prompt..."; lit "a koala"]]
         ++ generationCalls (lit "a koala")
              [Sample.running; Sample.running; Sample.running]
              [(lit "https://v.example/1?alt=media&key=K", Some (lit "AAAAIGZ0eXA="))]
         ++ [EvLog [lit "Generated video data received."]]
    /\ videos (final r) = newVideo :: [Sample.clip]
    /\ generatedVideosHistory (final r)
       = [{| toVideo := newVideo; createdAt := 1700000000000%Z |}]
    /\ generationError (final r) = None.
Proof.
  intros w.
  refine (proj2 (generation_workflow 5 w (lit "a koala")
                   Sample.running Sample.finished
                   [Sample.running; Sample.running; Sample.running]
                   {| generatedVideos :=
                        Some [ {| video := Some {| uri := Some (lit "https://v.example/1?alt=media") |} |} ] |}
                   [ {| video := Some {| uri := Some (lit "https://v.example/1?alt=media") |} |} ]
                   (lit "https://v.example/1?alt=media&key=K")
                   (Some (lit "AAAAIGZ0eXA=")) []
                   _ _ _ _ _ _)
                Sample.prompted _ _).
  - reflexivity.
  - apply sample_Polls.
  - simpl. lia.
  - reflexivity.
  - reflexivity.
  - constructor; [|constructor]. exact (sample_Downloads (Some (lit "K"))).
  - reflexivity.
  - discriminate.
Defined.

(* ===================================================================== *)
(** ** Failures *)
(* ===================================================================== *)

Lemma creation_failure_rejects fuel w p e :
  generateVideos w (submitted p) = inl e ->
  generateVideoFromText fuel w p = (Rejected e, [EvGenerateVideos (submitted p)]).
Proof.
  intros H. unfold generateVideoFromText.
  change (mkParams VEO_MODEL_NAME p (mkConfig 1 (lit "16:9"))) with (submitted p).
  now rewrite H.
Qed.

Lemma polling_failure_rejects fuel w p op0 ops e :
  generateVideos w (submitted p) = inr op0 ->
  Polls w 0 op0 ops (inl e) ->
  (length ops <= fuel)%nat ->
  generateVideoFromText fuel w p
  = (Rejected e, [EvGenerateVideos (submitted p)] ++ flat_map pollCalls ops).
Proof.
  intros Hc HP Hfuel. unfold generateVideoFromText.
  change (mkParams VEO_MODEL_NAME p (mkConfig 1 (lit "16:9"))) with (submitted p).
  rewrite Hc. cbn [bind emit settle ret].
  rewrite (pollLoop_Polls w 0 op0 ops (inl e) HP fuel Hfuel). reflexivity.
Qed.

Lemma empty_result_rejects fuel w p op0 ops opn :
  generateVideos w (submitted p) = inr op0 ->
  Polls w 0 op0 ops (inr opn) ->
  (length ops <= fuel)%nat ->
  response opn = None
  \/ (exists resp, response opn = Some resp
                   /\ (generatedVideos resp = None
                       \/ generatedVideos resp = Some [])) ->
  generateVideoFromText fuel w p
  = (Rejected (Error (lit "No videos generated")),
     [EvGenerateVideos (submitted p)] ++ flat_map pollCalls ops).
Proof.
  intros Hc HP Hfuel Hempty. unfold generateVideoFromText.
  change (mkParams VEO_MODEL_NAME p (mkConfig 1 (lit "16:9"))) with (submitted p).
  rewrite Hc. cbn [bind emit settle ret].
  rewrite (pollLoop_Polls w 0 op0 ops (inr opn) HP fuel Hfuel).
  cbn [outcomeOf bind].
  destruct Hempty as [-> | [resp [-> [-> | ->]]]];
    cbn [throw]; now rewrite app_nil_r.
Qed.

Lemma failed_fetch_rejects w g v url res :
  video g = Some v ->
  decodeURIComponent w (interpolate (uri v)) = Some url ->
  fetch w (url ++ lit "&key=" ++ interpolate (API_KEY w)) = inr res ->
  ok res = false ->
  fetchGeneratedVideo w g
  = (Rejected (Error (lit "Failed to fetch video: " ++ ofNumber (status res)
                      ++ lit " " ++ statusText res)),
     [EvFetch (url ++ lit "&key=" ++ interpolate (API_KEY w))]).
Proof.
  intros Hv Hurl Hres Hok. unfold fetchGeneratedVideo.
  rewrite Hv. cbn [bind ret]. rewrite Hurl. cbn [bind ret emit].
  rewrite Hres. cbn [bind emit settle ret]. rewrite Hok. reflexivity.
Qed.

Lemma Promise_all_rejects {A} (ps : list (Started A)) :
  Exists (fun p : Started A => exists e, fst (snd p) = Rejected e) ps ->
  exists e, fst (Promise_all ps) = Rejected e.
Proof.
  intros Hex. rewrite Promise_all_fst.
  destruct (firstRejection ps) as [[t e]|] eqn:Hfirst; [now exists e|].
  exfalso. apply firstRejection_None in Hfirst.
  rewrite List.Forall_forall in Hfirst. rewrite List.Exists_exists in Hex.
  destruct Hex as (p & Hin & e & He). exact (Hfirst p Hin e He).
Qed.

(** The calls of [generateVideoFromText] hold one submission, whatever
    happens afterwards. *)
Lemma submissions_app t1 t2 :
  submissions (t1 ++ t2) = (submissions t1 + submissions t2)%nat.
Proof. unfold submissions. now rewrite List.filter_app, length_app. Qed.

Lemma submissions_bind {A B} (m : Async A) (k : A -> Async B) n :
  submissions (snd m) = n ->
  (forall a, submissions (snd (k a)) = 0%nat) ->
  submissions (snd (bind m k)) = n.
Proof.
  intros Hm Hk. destruct m as [[a|e|] t]; cbn [bind snd] in *; try exact Hm.
  specialize (Hk a). destruct (k a) as [o t']. cbn [snd] in *.
  rewrite submissions_app, Hm, Hk. lia.
Qed.

Lemma pollLoop_no_submission fuel w :
  forall k op, submissions (snd (pollLoop fuel w k op)) = 0%nat.
Proof.
  induction fuel as [|fuel IH]; intros k op.
  - simpl. now destruct (done op).
  - destruct (done op) eqn:Hd; [now rewrite pollLoop_done|].
    destruct (getVideosOperation w k op) as [e|op'] eqn:Hr.
    + now rewrite (pollLoop_rejected fuel w k op e Hd Hr).
    + rewrite (pollLoop_next fuel w k op op' Hd Hr). cbn [snd].
      rewrite submissions_app, IH. reflexivity.
Qed.

Lemma fetchGeneratedVideo_no_submission w g :
  submissions (snd (fetchGeneratedVideo w g)) = 0%nat.
Proof.
  unfold fetchGeneratedVideo, bloblToBase64.
  destruct (video g) as [v|]; [|reflexivity]. cbn [bind ret].
  destruct (decodeURIComponent w _) as [url|]; [|reflexivity].
  cbn [bind ret emit].
  destruct (fetch w _) as [e|res]; [reflexivity|]. cbn [bind settle ret].
  destruct (ok res); [|reflexivity]. cbn [negb].
  destruct (body res) as [e|blob]; [reflexivity|]. cbn [bind settle ret].
  now destruct (readAsDataURL w blob).
Qed.

Lemma Promise_all_no_submission w gvs :
  submissions (snd (Promise_all (List.map (startFetch w) gvs))) = 0%nat.
Proof.
  rewrite Promise_all_snd.
  induction gvs as [|g gvs IH]; [reflexivity|].
  cbn [List.map concat]. rewrite submissions_app, IH.
  unfold startFetch. cbn [snd].
  now rewrite (fetchGeneratedVideo_no_submission w g).
Qed.

Lemma generateVideoFromText_submits_once fuel w p :
  submissions (snd (generateVideoFromText fuel w p)) = 1%nat.
Proof.
  unfold generateVideoFromText.
  apply submissions_bind; [reflexivity|]. intros _.
  apply submissions_bind; [now destruct (generateVideos w _)|]. intros op0.
  apply submissions_bind; [apply pollLoop_no_submission|]. intros opn.
  destruct (response opn) as [resp|]; [|reflexivity].
  destruct (generatedVideos resp) as [[|g gvs]|]; try reflexivity.
  apply Promise_all_no_submission.
Qed.

Lemma handleSaveEdit_rejected fuel w originalVideo s e t :
  generateVideoFromText fuel w (description originalVideo) = (Rejected e, t) ->
  handleSaveEdit fuel w originalVideo s
  = mkRun true
      (handleSaveEdit_start s |> setGenerationError (Some GENERATION_FAILED)
                              |> setIsSaving false)
      ([EvLog [lit "Generating video..."; description originalVideo]]
       ++ t ++ [EvConsoleError (lit "Video generation failed:") e]).
Proof.
  intros H. unfold handleSaveEdit.
  now rewrite (awaitGeneration_rejected _ _ _ _ _ _ _ _ H).
Qed.

Lemma handleGenerateNewVideo_rejected fuel w s e t :
  trim (newVideoPrompt s) <> [] ->
  generateVideoFromText fuel w (trim (newVideoPrompt s)) = (Rejected e, t) ->
  handleGenerateNewVideo fuel w s
  = mkRun true
      (handleGenerateNewVideo_start s
         |> setGenerationError (Some GENERATION_FAILED)
         |> setIsSaving false)
      ([EvLog [lit "Generating video from new prompt..."; trim (newVideoPrompt s)]]
       ++ t ++ [EvConsoleError (lit "Video generation failed:") e]).
Proof.
  intros Hp H. rewrite (handleGenerateNewVideo_started fuel w s Hp).
  now rewrite (awaitGeneration_rejected _ _ _ _ _ _ _ _ H).
Qed.

(** A blob that cannot be read is not a failure of this kind: [onload] never
    fires, the promise of [bloblToBase64] never settles, and the handler
    stays at its [await] with [isSaving] true. *)
Example unreadable_blob_never_settles :
  let r := handleGenerateNewVideo 5 Sample.unreadable Sample.prompted in
  settled r = false /\ isSaving (final r) = true /\ generationError (final r) = None.
Proof. repeat split. Qed.

(** C3: whatever [generateVideoFromText] is rejected with (a job that could
    not be created, a poll that failed, an empty result, a fetch that
    failed), both handlers do the same: they log the error, set the one
    fixed message, and are done. Nothing is called again: the job was
    submitted once, and after the calls of the failed generation there is
    only the [console.error]. *)
Theorem every_failure_shows_the_same_message
    (fuel : nat) (w : World) (p : jsstring) (e : JsError) (t : list Event) :
  generateVideoFromText fuel w p = (Rejected e, t) ->
  (forall (originalVideo : Video) (s : State),
      description originalVideo = p ->
      let r := handleSaveEdit fuel w originalVideo s in
      settled r = true
      /\ generationError (final r)
         = Some [ lit "Video generation failed.";
                  lit "This may be due to an invalid API key or network issues." ]
      /\ calls r = [EvLog [lit "Generating video..."; p]] ++ t
                   ++ [EvConsoleError (lit "Video generation failed:") e]
      /\ submissions (calls r) = 1%nat)
  /\ (forall (s : State),
      trim (newVideoPrompt s) = p ->
      p <> [] ->
      let r := handleGenerateNewVideo fuel w s in
      settled r = true
      /\ generationError (final r)
         = Some [ lit "Video generation failed.";
                  lit "This may be due to an invalid API key or network issues." ]
      /\ calls r = [EvLog [lit "Generating video from new prompt..."; p]] ++ t
                   ++ [EvConsoleError (lit "Video generation failed:") e]
      /\ submissions (calls r) = 1%nat).
Proof.
  intros Hgen.
  assert (Hone : submissions t = 1%nat).
  { pose proof (generateVideoFromText_submits_once fuel w p) as H.
    now rewrite Hgen in H. }
  split.
  - intros originalVideo s Hp r. subst r p.
    rewrite (handleSaveEdit_rejected fuel w originalVideo s e t Hgen).
    cbn [settled final calls]. repeat split.
    rewrite !submissions_app, Hone. reflexivity.
  - intros s Hp Hne r. subst r p.
    rewrite (handleGenerateNewVideo_rejected fuel w s e t Hne Hgen).
    cbn [settled final calls]. repeat split.
    rewrite !submissions_app, Hone. reflexivity.
Qed.

Lemma every_failure_shows_the_same_message_witness :
  let r := handleSaveEdit 0 Sample.refused Sample.clip Sample.editingClip in
  settled r = true
  /\ generationError (final r)
     = Some [ lit "Video generation failed.";
              lit "This may be due to an invalid API key or network issues." ]
  /\ calls r
     = [EvLog [lit "Generating video..."; description Sample.clip]]
       ++ [EvGenerateVideos (submitted (description Sample.clip))]
       ++ [EvConsoleError (lit "Video generation failed:")
                          (External (lit "API key not valid"))]
  /\ submissions (calls r) = 1%nat.
Proof.
  refine (proj1 (every_failure_shows_the_same_message 0 Sample.refused
                   (description Sample.clip)
                   (External (lit "API key not valid"))
                   [EvGenerateVideos (submitted (description Sample.clip))] _)
                Sample.clip Sample.editingClip _).
  - reflexivity.
  - reflexivity.
Defined.

(** C5, as stated, fails: after a failed remix more has changed than the
    error message and [isSaving]. The edit page is closed and the progress
    message is another. *)
Lemma failure_changes_more_than_the_error :
  ~ (forall (fuel : nat) (w : World) (originalVideo : Video) (s : State)
            (e : JsError) (t : list Event),
        generateVideoFromText fuel w (description originalVideo) = (Rejected e, t) ->
        final (handleSaveEdit fuel w originalVideo s)
        = (s |> setGenerationError (Some GENERATION_FAILED)
             |> setIsSaving false)).
Proof.
  intros H.
  specialize (H 0%nat Sample.refused Sample.clip Sample.editingClip
                (External (lit "API key not valid"))
                [EvGenerateVideos (submitted (description Sample.clip))]
                eq_refl).
  apply (f_equal editingVideo) in H. discriminate H.
Qed.

(** C5 (amended): when [generateVideoFromText] is rejected, the video list,
    the history, the view and the prompt text (and the player's state) are
    as they were; the error message is set and [isSaving] is false again;
    besides, the progress message is the one the handler set when it
    started, and [handleSaveEdit] has closed the edit page. *)
Theorem failure_keeps_lists_view_and_prompt
    (fuel : nat) (w : World) (p : jsstring) (e : JsError) (t : list Event) :
  generateVideoFromText fuel w p = (Rejected e, t) ->
  (forall (originalVideo : Video) (s : State),
      description originalVideo = p ->
      final (handleSaveEdit fuel w originalVideo s)
      = {| videos := videos s;
           playingVideo := playingVideo s;
           editingVideo := None;
           isSaving := false;
           savingMessage := lit "Creating your remix...";
           generationError := Some GENERATION_FAILED;
           view := view s;
           generatedVideosHistory := generatedVideosHistory s;
           newVideoPrompt := newVideoPrompt s;
           loadingVideoId := loadingVideoId s;
           isPlaying := isPlaying s |})
  /\ (forall (s : State),
      trim (newVideoPrompt s) = p ->
      p <> [] ->
      final (handleGenerateNewVideo fuel w s)
      = {| videos := videos s;
           playingVideo := playingVideo s;
           editingVideo := editingVideo s;
           isSaving := false;
           savingMessage := lit "Generating your video...";
           generationError := Some GENERATION_FAILED;
           view := view s;
           generatedVideosHistory := generatedVideosHistory s;
           newVideoPrompt := newVideoPrompt s;
           loadingVideoId := loadingVideoId s;
           isPlaying := isPlaying s |}).
Proof.
  intros Hgen. split.
  - intros originalVideo s Hp. subst p.
    now rewrite (handleSaveEdit_rejected fuel w originalVideo s e t Hgen).
  - intros s Hp Hne. subst p.
    now rewrite (handleGenerateNewVideo_rejected fuel w s e t Hne Hgen).
Qed.

Lemma failure_keeps_lists_view_and_prompt_witness :
  final (handleGenerateNewVideo 0 Sample.refused Sample.prompted)
  = {| videos := [Sample.clip];
       playingVideo := None;
       editingVideo := None;
       isSaving := false;
       savingMessage := lit "Generating your video...";
       generationError := Some GENERATION_FAILED;
       view := gallery;
       generatedVideosHistory := [];
       newVideoPrompt := lit "  a koala ";
       loadingVideoId := None;
       isPlaying := false |}.
Proof.
  refine (proj2 (failure_keeps_lists_view_and_prompt 0 Sample.refused
                   (lit "a koala") (External (lit "API key not valid"))
                   [EvGenerateVideos (submitted (lit "a koala"))] _)
                Sample.prompted _ _).
  - reflexivity.
  - reflexivity.
  - discriminate.
Defined.

(** C9: with a prompt that is empty or all white space,
    [handleGenerateNewVideo] returns at once: it calls nothing, starts no
    request and leaves the state as it is (and the button that calls it is
    disabled). *)
Theorem blank_prompt_is_a_no_op (fuel : nat) (w : World) (s : State) :
  Forall (fun c => isWhiteSpace c = true) (newVideoPrompt s) ->
  handleGenerateNewVideo fuel w s = mkRun true s []
  /\ dispatch OnGenerate s = (s, [])
  /\ offers (render s) OnGenerate = false.
Proof.
  intros Hblank. pose proof (trim_whitespace _ Hblank) as Htrim.
  unfold handleGenerateNewVideo, dispatch, render. rewrite Htrim.
  repeat split.
  destruct (isSaving s); [reflexivity|].
  now destruct (editingVideo s).
Qed.

Lemma blank_prompt_is_a_no_op_witness :
  let s := setNewVideoPrompt [0x20; 0x09; 0x0A; 0x3000] (initialState [Sample.clip]) in
  handleGenerateNewVideo 5 (Sample.world None) s = mkRun true s []
  /\ dispatch OnGenerate s = (s, [])
  /\ offers (render s) OnGenerate = false.
Proof.
  intros s.
  apply (blank_prompt_is_a_no_op 5 (Sample.world None) s).
  repeat constructor.
Defined.

(* ===================================================================== *)
(** ** The page as a transition system *)
(* ===================================================================== *)

Lemma offers_not_saving s a : offers (render s) a = true -> isSaving s = false.
Proof. unfold render. now destruct (isSaving s). Qed.

Lemma saving_offers_nothing s a : isSaving s = true -> offers (render s) a = false.
Proof. intros H. unfold render. now rewrite H. Qed.

Lemma resume_not_saving r uuid date result s :
  isSaving (resume r uuid date result s) = false.
Proof.
  destruct r as [v|p]; destruct result as [e|[|src l]]; reflexivity.
Qed.

(** What a callback does to [isSaving] and to the requests in flight. *)
Lemma dispatch_serial a s :
  offers (render s) a = true ->
  (snd (dispatch a s) = [] /\ isSaving (fst (dispatch a s)) = false)
  \/ (exists r, snd (dispatch a s) = [r] /\ isSaving (fst (dispatch a s)) = true).
Proof.
  intros Hoff. pose proof (offers_not_saving s a Hoff) as Hs.
  destruct a; cbn [dispatch fst snd]; try (left; split; [reflexivity|exact Hs]).
  - right. eexists. split; reflexivity.
  - unfold render in Hoff. rewrite Hs in Hoff.
    destruct (editingVideo s); [discriminate|].
    cbn [offers generateDisabled] in Hoff.
    rewrite orb_false_r, negb_involutive in Hoff.
    rewrite Hoff. cbn [negb fst snd]. right. eexists. split; reflexivity.
Qed.

Ltac modal_cases Hedit Hplay :=
  unfold ModalCoherent; cbn;
  split;
  [ first [ exact Hedit | intros; first [congruence | tauto] ]
  | first [ exact Hplay | split; congruence ] ].

Lemma dispatch_modal a s :
  offers (render s) a = true ->
  ModalCoherent s ->
  ModalCoherent (fst (dispatch a s)).
Proof.
  intros Hoff [Hedit Hplay].
  pose proof (offers_not_saving s a Hoff) as Hs.
  unfold render in Hoff. rewrite Hs in Hoff.
  destruct s as [vs pv ev sv sm ge vw hs np li ip].
  cbn [isSaving editingVideo isPlaying playingVideo] in *. subst sv.
  destruct a; cbn [dispatch fst].
  - destruct ev; [discriminate|]. modal_cases Hedit Hplay.
  - modal_cases Hedit Hplay.
  - modal_cases Hedit Hplay.
  - modal_cases Hedit Hplay.
  - modal_cases Hedit Hplay.
  - modal_cases Hedit Hplay.
  - modal_cases Hedit Hplay.
  - destruct ev; [discriminate|].
    destruct (negb (truthy _)); cbn [fst]; modal_cases Hedit Hplay.
  - modal_cases Hedit Hplay.
  - modal_cases Hedit Hplay.
  - modal_cases Hedit Hplay.
Qed.

Lemma resume_modal r uuid date result s :
  editingVideo s = None ->
  ModalCoherent s ->
  ModalCoherent (resume r uuid date result s).
Proof.
  intros He [_ Hplay].
  destruct s as [vs pv ev sv sm ge vw hs np li ip]. cbn in *. subst ev.
  destruct r as [v|p]; destruct result as [e|[|src l]];
    modal_cases Hplay Hplay.
Qed.

Lemma load_invariant M stored :
  Serialized (load M stored) /\ ModalCoherent (app (load M stored)).
Proof.
  split.
  - left. split; reflexivity.
  - unfold ModalCoherent. cbn. split; [congruence|]. split; congruence.
Qed.

Lemma step_invariant M b i b' :
  Serialized b /\ ModalCoherent (app b) ->
  step M b i = Some b' ->
  Serialized b' /\ ModalCoherent (app b').
Proof.
  intros [Hser Hmod] Hstep. destruct i as [a|idx result uuid date|]; cbn in Hstep.
  - destruct (offers (render (app b)) a) eqn:Hoff; [|discriminate].
    pose proof (offers_not_saving _ _ Hoff) as Hs.
    pose proof (dispatch_serial a (app b) Hoff) as Hd.
    pose proof (dispatch_modal a (app b) Hoff Hmod) as Hm.
    destruct (dispatch a (app b)) as [s' started]. cbn [fst snd] in *.
    injection Hstep as <-. cbn [app inFlight]. split; [|exact Hm].
    destruct Hser as [[Hfl _]|[r [_ Hsv]]]; [|congruence].
    rewrite Hfl. cbn [List.app].
    destruct Hd as [[-> Hsv]|[r [-> Hsv]]]; [left|right; exists r]; now split.
  - destruct (inFlight b !! idx) as [r|] eqn:Hr; [|discriminate].
    injection Hstep as <-. cbn [app inFlight].
    destruct Hser as [[Hfl _]|[r0 [Hfl Hsv]]];
      [rewrite Hfl in Hr; discriminate|].
    rewrite Hfl in Hr |- *.
    destruct idx as [|idx]; [|destruct idx; discriminate].
    split.
    + left. split; [reflexivity|apply resume_not_saving].
    + apply resume_modal; [|exact Hmod].
      destruct (editingVideo (app b)) eqn:He; [|reflexivity].
      destruct Hmod as [Hedit _].
      destruct Hedit as (Hns & _); congruence.
  - injection Hstep as <-. apply load_invariant.
Qed.

Lemma run_invariant M inputs :
  forall b b',
    Serialized b /\ ModalCoherent (app b) ->
    run M b inputs = Some b' ->
    Serialized b' /\ ModalCoherent (app b').
Proof.
  induction inputs as [|i inputs IH]; intros b b' Hinv Hrun; cbn in Hrun.
  - now injection Hrun as <-.
  - destruct (step M b i) as [b1|] eqn:Hstep; [|discriminate].
    exact (IH b1 b' (step_invariant M b i b1 Hinv Hstep) Hrun).
Qed.

Lemma step_storage M b i b' : step M b i = Some b' -> storage b' = storage b.
Proof.
  destruct i as [a|idx result uuid date|]; cbn.
  - destruct (offers _ a); [|discriminate].
    destruct (dispatch a (app b)). now intros [= <-].
  - destruct (inFlight b !! idx); [|discriminate]. now intros [= <-].
  - now intros [= <-].
Qed.

Lemma run_storage M inputs :
  forall b b', run M b inputs = Some b' -> storage b' = storage b.
Proof.
  induction inputs as [|i inputs IH]; intros b b' Hrun; cbn in Hrun.
  - now injection Hrun as <-.
  - destruct (step M b i) as [b1|] eqn:Hstep; [|discriminate].
    rewrite (IH b1 b' Hrun). exact (step_storage M b i b1 Hstep).
Qed.

Example session_runs :
  option_map (fun b => (length (generatedVideosHistory (app b)),
                        view (app b), isSaving (app b), inFlight b))
             (run [Sample.clip] (load [Sample.clip] []) Sample.session)
  = Some (1%nat, history, false, []).
Proof. reflexivity. Qed.

(** The player can be open when a generation starts: the two conditions then
    hold together, and the saving screen is what is rendered. *)
Example saving_over_the_player :
  option_map (fun b => (saving (app b), playing (app b), render (app b)))
             (run [Sample.clip] (load [Sample.clip] [])
                  [ User (OnPlayVideo Sample.clip);
                    User (OnChangePrompt (lit "a koala"));
                    User OnGenerate ])
  = Some (true, true, SavingProgressPage (lit "Generating your video...")).
Proof. reflexivity. Qed.

(** C4: on every page reached from a load, at most one generation request
    is in flight, and one is in flight only while [isSaving] is true. While
    [isSaving] is true the saving screen is all that is rendered and no
    callback can be called, so no generation can start; and when the request
    settles, fulfilled or rejected, [isSaving] is false again and nothing is
    in flight. *)
Theorem one_generation_in_flight
    (MOCK_VIDEOS : list Video) (stored : list (jsstring * jsstring))
    (inputs : list Input) (b : Browser) :
  run MOCK_VIDEOS (load MOCK_VIDEOS stored) inputs = Some b ->
  (length (inFlight b) <= 1)%nat
  /\ (inFlight b <> [] -> isSaving (app b) = true)
  /\ (isSaving (app b) = true ->
      render (app b) = SavingProgressPage (savingMessage (app b))
      /\ forall a, step MOCK_VIDEOS b (User a) = None)
  /\ (forall i result uuid date b',
        step MOCK_VIDEOS b (Settles i result uuid date) = Some b' ->
        isSaving (app b') = false /\ inFlight b' = []).
Proof.
  intros Hrun.
  destruct (run_invariant MOCK_VIDEOS inputs _ b
              (load_invariant MOCK_VIDEOS stored) Hrun) as [Hser _].
  split; [|split; [|split]].
  - destruct Hser as [[-> _]|[r [-> _]]]; simpl; lia.
  - destruct Hser as [[-> _]|[r [_ Hs]]]; congruence.
  - intros Hs. split.
    + unfold render. now rewrite Hs.
    + intros a. cbn [step]. now rewrite (saving_offers_nothing _ a Hs).
  - intros i result uuid date b' Hstep. cbn [step] in Hstep.
    destruct (inFlight b !! i) as [r|] eqn:Hr; [|discriminate].
    injection Hstep as <-. cbn [app inFlight].
    split; [apply resume_not_saving|].
    destruct Hser as [[Hfl _]|[r0 [Hfl _]]]; rewrite Hfl in Hr |- *.
    + discriminate.
    + destruct i as [|i]; [reflexivity|destruct i; discriminate].
Qed.

Lemma one_generation_in_flight_witness :
  let b := {| app := handleGenerateNewVideo_start
                       (setNewVideoPrompt (lit "a koala") (initialState [Sample.clip]));
              inFlight := [FromPrompt (lit "a koala")];
              storage := [] |} in
  (length (inFlight b) <= 1)%nat
  /\ (inFlight b <> [] -> isSaving (app b) = true)
  /\ (isSaving (app b) = true ->
      render (app b) = SavingProgressPage (savingMessage (app b))
      /\ forall a, step [Sample.clip] b (User a) = None)
  /\ (forall i result uuid date b',
        step [Sample.clip] b (Settles i result uuid date) = Some b' ->
        isSaving (app b') = false /\ inFlight b' = []).
Proof.
  intros b.
  apply (one_generation_in_flight [Sample.clip] [] Sample.waiting b).
  reflexivity.
Defined.

(** C6, as stated, fails: on a page just loaded nothing is being edited,
    played or saved. *)
Lemma no_modal_on_load :
  ~ (forall (MOCK_VIDEOS : list Video) (stored : list (jsstring * jsstring))
            (inputs : list Input) (b : Browser),
        run MOCK_VIDEOS (load MOCK_VIDEOS stored) inputs = Some b ->
        editing (app b) = true \/ playing (app b) = true
        \/ saving (app b) = true).
Proof.
  intros H.
  destruct (H [] [] [] (load [] []) eq_refl) as [H1|[H1|H1]]; discriminate H1.
Qed.

(** C6 (amended): on every page reached from a load, the view is the
    gallery or the history; the page may be editing, playing, saving, or
    none of these, as it is when loaded. Editing goes with neither playing
    nor saving, and [isPlaying] is true exactly when [playingVideo] is
    set. *)
Theorem modal_state_is_coherent
    (MOCK_VIDEOS : list Video) (stored : list (jsstring * jsstring))
    (inputs : list Input) (b : Browser) :
  run MOCK_VIDEOS (load MOCK_VIDEOS stored) inputs = Some b ->
  (view (app b) = gallery \/ view (app b) = history)
  /\ (editing (app b) = true ->
      playing (app b) = false /\ saving (app b) = false)
  /\ (isPlaying (app b) = true <-> playingVideo (app b) <> None).
Proof.
  intros Hrun.
  destruct (run_invariant MOCK_VIDEOS inputs _ b
              (load_invariant MOCK_VIDEOS stored) Hrun) as [_ [Hedit Hplay]].
  split; [|split; [|exact Hplay]].
  - destruct (view (app b)); auto.
  - unfold editing, playing, saving. intros He.
    destruct (editingVideo (app b)) as [v|]; [|discriminate].
    destruct Hedit as (-> & -> & _); [congruence|]. split; reflexivity.
Qed.

Lemma modal_state_is_coherent_witness :
  exists b,
    run [Sample.clip] (load [Sample.clip] []) Sample.session = Some b
    /\ (view (app b) = gallery \/ view (app b) = history)
    /\ (editing (app b) = true ->
        playing (app b) = false /\ saving (app b) = false)
    /\ (isPlaying (app b) = true <-> playingVideo (app b) <> None).
Proof.
  eexists. split; [reflexivity|].
  apply (modal_state_is_coherent [Sample.clip] [] Sample.session).
  reflexivity.
Defined.

Lemma run_app M l1 l2 :
  forall b,
    run M b (l1 ++ l2)
    = match run M b l1 with Some b1 => run M b1 l2 | None => None end.
Proof.
  induction l1 as [|i l1 IH]; intros b; cbn; [reflexivity|].
  destruct (step M b i); [apply IH|reflexivity].
Qed.

Lemma quiet_bind {A B} (m : Async A) (k : A -> Async B) :
  Forall (fun ev => isStorageWrite ev = false) (snd m) ->
  (forall a, Forall (fun ev => isStorageWrite ev = false) (snd (k a))) ->
  Forall (fun ev => isStorageWrite ev = false) (snd (bind m k)).
Proof.
  intros Hm Hk. rewrite bind_snd. apply Forall_app. split; [exact Hm|].
  destruct (fst m); [apply Hk|constructor..].
Qed.

Lemma quiet_emit ev :
  isStorageWrite ev = false ->
  Forall (fun ev => isStorageWrite ev = false) (snd (emit ev)).
Proof. intros H. repeat constructor. exact H. Qed.

Lemma quiet_settle {A} (r : JsError + A) :
  Forall (fun ev => isStorageWrite ev = false) (snd (settle r)).
Proof. destruct r; constructor. Qed.

Lemma pollLoop_quiet fuel w :
  forall k op,
    Forall (fun ev => isStorageWrite ev = false) (snd (pollLoop fuel w k op)).
Proof.
  induction fuel as [|fuel IH]; intros k op; cbn [pollLoop];
    destruct (done op); try constructor.
  apply quiet_bind; [now apply quiet_emit|]. intros _.
  apply quiet_bind; [now apply quiet_emit|]. intros _.
  apply quiet_bind; [now apply quiet_emit|]. intros _.
  apply quiet_bind; [apply quiet_settle|]. intros op'. apply IH.
Qed.

Lemma fetchGeneratedVideo_quiet w g :
  Forall (fun ev => isStorageWrite ev = false) (snd (fetchGeneratedVideo w g)).
Proof.
  unfold fetchGeneratedVideo.
  apply quiet_bind; [destruct (video g); constructor|]. intros v.
  apply quiet_bind; [destruct (decodeURIComponent w _); constructor|].
  intros url. cbv zeta.
  apply quiet_bind; [now apply quiet_emit|]. intros _.
  apply quiet_bind; [apply quiet_settle|]. intros res.
  destruct (negb (ok res)); [constructor|].
  apply quiet_bind; [apply quiet_settle|]. intros blob.
  unfold bloblToBase64. destruct (readAsDataURL w blob); constructor.
Qed.

Lemma generateVideoFromText_quiet fuel w p :
  Forall (fun ev => isStorageWrite ev = false)
         (snd (generateVideoFromText fuel w p)).
Proof.
  unfold generateVideoFromText. cbv zeta.
  apply quiet_bind; [now apply quiet_emit|]. intros _.
  apply quiet_bind; [apply quiet_settle|]. intros op0.
  apply quiet_bind; [apply pollLoop_quiet|]. intros opn.
  destruct (response opn) as [resp|]; [|constructor].
  destruct (generatedVideos resp) as [[|g gvs]|]; try constructor.
  rewrite Promise_all_snd. generalize (g :: gvs). intros l.
  induction l as [|g' l IH]; cbn [List.map concat]; [constructor|].
  apply Forall_app. split; [apply fetchGeneratedVideo_quiet|exact IH].
Qed.

Lemma awaitGeneration_quiet fuel w greeting p started resume :
  (forall result, Forall (fun ev => isStorageWrite ev = false)
                         (snd (resume result started))) ->
  Forall (fun ev => isStorageWrite ev = false)
         (calls (awaitGeneration fuel w greeting p started resume)).
Proof.
  intros Hresume. unfold awaitGeneration.
  pose proof (generateVideoFromText_quiet fuel w p) as Hgen.
  destruct (generateVideoFromText fuel w p) as [[l|e|] t]; cbn [snd bind emit] in *.
  - specialize (Hresume (inr l)). destruct (resume (inr l) started) as [s' t'].
    cbn [calls snd] in *. constructor; [reflexivity|].
    apply Forall_app. now split.
  - specialize (Hresume (inl e)). destruct (resume (inl e) started) as [s' t'].
    cbn [calls snd] in *. constructor; [reflexivity|].
    apply Forall_app. now split.
  - cbn [calls]. constructor; [reflexivity|exact Hgen].
Qed.

Lemma handleSaveEdit_quiet fuel w originalVideo s :
  Forall (fun ev => isStorageWrite ev = false)
         (calls (handleSaveEdit fuel w originalVideo s)).
Proof.
  unfold handleSaveEdit. apply awaitGeneration_quiet.
  intros [e|[|src l]]; repeat constructor.
Qed.

Lemma handleGenerateNewVideo_quiet fuel w s :
  Forall (fun ev => isStorageWrite ev = false)
         (calls (handleGenerateNewVideo fuel w s)).
Proof.
  unfold handleGenerateNewVideo.
  destruct (negb (truthy (trim (newVideoPrompt s)))); [constructor|].
  apply awaitGeneration_quiet.
  intros [e|[|src l]]; repeat constructor.
Qed.

Lemma replay_quiet t stored :
  Forall (fun ev => isStorageWrite ev = false) t -> replay t stored = stored.
Proof.
  unfold replay. intros Ht. revert stored.
  induction Ht as [|ev t Hev _ IH]; intros stored; cbn [fold_left];
    [reflexivity|].
  rewrite IH. destruct ev; try reflexivity. discriminate Hev.
Qed.

(** C7: the history lives in the component state only. No run of a
    generating handler, from any state and in any world, makes a storage
    call, so that the persistent storage after its calls is the storage
    before; whatever happens on the page, the storage stays as it was found;
    a page that is loaded starts with the empty history, whatever is
    stored; and a reload, now or later, gives the page as it was first
    loaded, so the history built up to then is gone. *)
Theorem history_is_transient
    (MOCK_VIDEOS : list Video) (stored : list (jsstring * jsstring))
    (inputs : list Input) (b : Browser) :
  run MOCK_VIDEOS (load MOCK_VIDEOS stored) inputs = Some b ->
  storage b = stored
  /\ generatedVideosHistory (app (load MOCK_VIDEOS stored)) = []
  /\ (forall more b',
        run MOCK_VIDEOS b (more ++ [Reload]) = Some b' ->
        b' = load MOCK_VIDEOS stored)
  /\ (forall (fuel : nat) (w : World) (originalVideo : Video) (s : State),
        let r := handleSaveEdit fuel w originalVideo s in
        Forall (fun ev => isStorageWrite ev = false) (calls r)
        /\ replay (calls r) (storage b) = stored)
  /\ (forall (fuel : nat) (w : World) (s : State),
        let r := handleGenerateNewVideo fuel w s in
        Forall (fun ev => isStorageWrite ev = false) (calls r)
        /\ replay (calls r) (storage b) = stored).
Proof.
  intros Hrun.
  pose proof (run_storage MOCK_VIDEOS inputs _ b Hrun) as Hst.
  cbn [load storage] in Hst.
  split; [exact Hst|]. split; [reflexivity|]. split; [|split].
  - intros more b' Hmore. rewrite run_app in Hmore.
    destruct (run MOCK_VIDEOS b more) as [b1|] eqn:Hb1; [|discriminate].
    cbn in Hmore. injection Hmore as <-.
    now rewrite (run_storage MOCK_VIDEOS more b b1 Hb1), Hst.
  - intros fuel w originalVideo s r. subst r.
    pose proof (handleSaveEdit_quiet fuel w originalVideo s) as Hq.
    split; [exact Hq|]. now rewrite (replay_quiet _ _ Hq).
  - intros fuel w s r. subst r.
    pose proof (handleGenerateNewVideo_quiet fuel w s) as Hq.
    split; [exact Hq|]. now rewrite (replay_quiet _ _ Hq).
Qed.

Lemma history_is_transient_witness :
  exists b,
    run [Sample.clip] (load [Sample.clip] []) Sample.session = Some b
    /\ length (generatedVideosHistory (app b)) = 1%nat
    /\ storage b = []
    /\ generatedVideosHistory (app (load [Sample.clip] [])) = []
    /\ (forall more b',
          run [Sample.clip] b (more ++ [Reload]) = Some b' ->
          b' = load [Sample.clip] [])
    /\ (forall (fuel : nat) (w : World) (originalVideo : Video) (s : State),
          let r := handleSaveEdit fuel w originalVideo s in
          Forall (fun ev => isStorageWrite ev = false) (calls r)
          /\ replay (calls r) (storage b) = [])
    /\ (forall (fuel : nat) (w : World) (s : State),
          let r := handleGenerateNewVideo fuel w s in
          Forall (fun ev => isStorageWrite ev = false) (calls r)
          /\ replay (calls r) (storage b) = []).
Proof.
  eexists. split; [reflexivity|]. split; [reflexivity|].
  apply (history_is_transient [Sample.clip] [] Sample.session).
  reflexivity.
Defined.

(* ===================================================================== *)
(** ** The API key *)
(* ===================================================================== *)

Lemma fetchGeneratedVideo_calls_decoded w g url :
  Decodes w g url ->
  snd (fetchGeneratedVideo w g)
  = [EvFetch (url ++ lit "&key=" ++ interpolate (API_KEY w))].
Proof.
  intros (v & Hv & Hurl). unfold fetchGeneratedVideo, bloblToBase64.
  rewrite Hv. cbn [bind ret]. rewrite Hurl. cbn [bind ret emit].
  destruct (fetch w _) as [e|res]; [reflexivity|]. cbn [bind settle ret].
  destruct (ok res); [|reflexivity]. cbn [negb].
  destruct (body res) as [e|blob]; [reflexivity|]. cbn [bind settle ret].
  now destruct (readAsDataURL w blob).
Qed.

Lemma no_fetch_among_polls ops :
  List.filter isFetch (flat_map pollCalls ops) = [].
Proof. induction ops as [|op ops IH]; [reflexivity|exact IH]. Qed.

Lemma fetches_of_started w gvs urls :
  Forall2 (Decodes w) gvs urls ->
  List.filter isFetch (snd (Promise_all (List.map (startFetch w) gvs)))
  = List.map (fun url => EvFetch (url ++ lit "&key=" ++ interpolate (API_KEY w)))
             urls.
Proof.
  rewrite Promise_all_snd.
  induction 1 as [|g url gvs urls Hg _ IH]; [reflexivity|].
  cbn [List.map concat]. unfold startFetch at 1. cbn [snd].
  rewrite (fetchGeneratedVideo_calls_decoded w g url Hg).
  cbn [List.app List.filter isFetch]. now rewrite IH.
Qed.

(** The fetches of a job that is done: one per generated video, in their
    order, each of the decoded URI followed by [&key=] and the key. *)
Lemma fetches_of_a_done_job fuel w p op0 ops opn resp gvs urls :
  generateVideos w (submitted p) = inr op0 ->
  Polls w 0 op0 ops (inr opn) ->
  (length ops <= fuel)%nat ->
  response opn = Some resp ->
  generatedVideos resp = Some gvs ->
  Forall2 (Decodes w) gvs urls ->
  List.filter isFetch (snd (generateVideoFromText fuel w p))
  = List.map (fun url => EvFetch (url ++ lit "&key=" ++ interpolate (API_KEY w)))
             urls.
Proof.
  intros Hcreate Hpolls Hfuel Hresp Hgvs Hdec.
  unfold generateVideoFromText. cbv zeta.
  change (mkParams VEO_MODEL_NAME p (mkConfig 1 (lit "16:9"))) with (submitted p).
  rewrite bind_snd. cbn [emit fst snd]. rewrite bind_snd, Hcreate.
  cbn [settle ret fst snd]. rewrite bind_snd.
  rewrite (pollLoop_Polls w 0 op0 ops (inr opn) Hpolls fuel Hfuel).
  cbn [outcomeOf fst snd]. rewrite Hresp, Hgvs.
  cbn [List.app]. cbn [List.filter isFetch].
  rewrite List.filter_app, no_fetch_among_polls. cbn [List.app].
  destruct gvs as [|g gvs].
  - inversion Hdec. reflexivity.
  - now apply fetches_of_started.
Qed.

Section Key.

Variables w1 w2 : World.
Hypothesis Hsame : SameButKey w1 w2.

Local Abbreviation k1 := (interpolate (API_KEY w1)).
Local Abbreviation k2 := (interpolate (API_KEY w2)).

Lemma alike_ret {A} (a : A) : AlikeButKey k1 k2 (ret a) (ret a).
Proof. split; [reflexivity|constructor]. Qed.

Lemma alike_throw {A} e : AlikeButKey k1 k2 (@throw A e) (throw e).
Proof. split; [reflexivity|constructor]. Qed.

Lemma alike_never {A} : AlikeButKey k1 k2 (@never A) never.
Proof. split; [reflexivity|constructor]. Qed.

Lemma alike_settle {A} (r : JsError + A) : AlikeButKey k1 k2 (settle r) (settle r).
Proof. destruct r; [apply alike_throw|apply alike_ret]. Qed.

Lemma alike_emit ev ev' :
  SameCall k1 k2 ev ev' -> AlikeButKey k1 k2 (emit ev) (emit ev').
Proof. intros H. split; [reflexivity|]. repeat constructor. exact H. Qed.

Lemma alike_bind {A B} (m1 m2 : Async A) (f1 f2 : A -> Async B) :
  AlikeButKey k1 k2 m1 m2 ->
  (forall a, AlikeButKey k1 k2 (f1 a) (f2 a)) ->
  AlikeButKey k1 k2 (bind m1 f1) (bind m2 f2).
Proof.
  destruct m1 as [o1 t1], m2 as [o2 t2]. intros [Ho Ht] Hf.
  cbn [fst snd] in Ho, Ht. subst o2.
  destruct o1 as [a|e|]; cbn [bind]; try (split; [reflexivity|exact Ht]).
  destruct (Hf a) as [Hfo Hft].
  destruct (f1 a) as [o1' t1'], (f2 a) as [o2' t2']. cbn [fst snd] in *.
  split; [exact Hfo|]. now apply Forall2_app.
Qed.

Lemma pollLoop_alike fuel :
  forall k op, AlikeButKey k1 k2 (pollLoop fuel w1 k op) (pollLoop fuel w2 k op).
Proof.
  induction fuel as [|fuel IH]; intros k op; cbn [pollLoop];
    destruct (done op); try apply alike_ret; [apply alike_never|].
  apply alike_bind; [apply alike_emit; constructor|]. intros _.
  apply alike_bind; [apply alike_emit; constructor|]. intros _.
  apply alike_bind; [apply alike_emit; constructor|]. intros _.
  rewrite (same_getVideosOperation w1 w2 Hsame).
  apply alike_bind; [apply alike_settle|]. intros op'. apply IH.
Qed.

Lemma Polls_alike k op ops r :
  Polls w1 k op ops r -> Polls w2 k op ops r.
Proof.
  induction 1 as [k op Hd | k op e Hd He | k op op' ops r Hd Hr _ IH].
  - now constructor.
  - constructor; [exact Hd|]. now rewrite <- (same_getVideosOperation w1 w2 Hsame).
  - apply (Polls_next w2 k op op'); [exact Hd| |exact IH].
    now rewrite <- (same_getVideosOperation w1 w2 Hsame).
Qed.

Lemma Decodes_alike gvs urls :
  Forall2 (Decodes w1) gvs urls -> Forall2 (Decodes w2) gvs urls.
Proof.
  induction 1 as [|g url gvs urls (v & Hv & Hurl) _ IH]; constructor;
    [|exact IH].
  exists v. split; [exact Hv|].
  now rewrite <- (same_decodeURIComponent w1 w2 Hsame).
Qed.

Lemma fetchGeneratedVideo_alike g :
  AlikeButKey k1 k2 (fetchGeneratedVideo w1 g) (fetchGeneratedVideo w2 g).
Proof.
  unfold fetchGeneratedVideo.
  apply alike_bind; [destruct (video g); [apply alike_ret|apply alike_throw]|].
  intros v. rewrite (same_decodeURIComponent w1 w2 Hsame).
  apply alike_bind;
    [destruct (decodeURIComponent w2 _); [apply alike_ret|apply alike_throw]|].
  intros url. cbv zeta.
  apply alike_bind; [apply alike_emit; apply SameCall_fetch|]. intros _.
  rewrite (same_fetch w1 w2 Hsame).
  apply alike_bind; [apply alike_settle|]. intros res.
  destruct (negb (ok res)); [apply alike_throw|].
  apply alike_bind; [apply alike_settle|]. intros blob.
  unfold bloblToBase64. rewrite (same_readAsDataURL w1 w2 Hsame).
  destruct (readAsDataURL w2 blob); [apply alike_ret|apply alike_never].
Qed.

Lemma Promise_all_alike {A} (ps1 ps2 : list (Started A)) :
  Forall2 (fun p1 p2 : Started A =>
             fst p1 = fst p2 /\ AlikeButKey k1 k2 (snd p1) (snd p2)) ps1 ps2 ->
  AlikeButKey k1 k2 (Promise_all ps1) (Promise_all ps2).
Proof.
  intros Hall. split.
  - rewrite !Promise_all_fst.
    assert (Hfirst : firstRejection ps1 = firstRejection ps2
                     /\ fulfilledValues ps1 = fulfilledValues ps2).
    { induction Hall as [|[t1 [o1 tr1]] [t2 [o2 tr2]] ps1 ps2 [Ht [Ho _]] _ [IH1 IH2]];
        [split; reflexivity|].
      cbn [fst snd] in Ht, Ho. subst t2 o2.
      cbn [firstRejection fulfilledValues]. rewrite IH1, IH2. split; reflexivity. }
    destruct Hfirst as [-> ->]. reflexivity.
  - rewrite !Promise_all_snd.
    induction Hall as [|p1 p2 ps1 ps2 [_ [_ Ht]] _ IH]; cbn [List.map concat];
      [constructor|].
    now apply Forall2_app.
Qed.

Lemma startFetch_alike g :
  fst (startFetch w1 g) = fst (startFetch w2 g)
  /\ AlikeButKey k1 k2 (snd (startFetch w1 g)) (snd (startFetch w2 g)).
Proof.
  split; [|apply fetchGeneratedVideo_alike].
  unfold startFetch, fetchSettledAt. cbn [fst].
  destruct (video g) as [v|]; [|reflexivity].
  rewrite (same_decodeURIComponent w1 w2 Hsame).
  destruct (decodeURIComponent w2 _) as [url|]; [|reflexivity].
  now rewrite (same_settledAt w1 w2 Hsame).
Qed.

Lemma generateVideoFromText_alike fuel p :
  AlikeButKey k1 k2 (generateVideoFromText fuel w1 p)
                    (generateVideoFromText fuel w2 p).
Proof.
  unfold generateVideoFromText. cbv zeta.
  apply alike_bind; [apply alike_emit; constructor|]. intros _.
  rewrite (same_generateVideos w1 w2 Hsame).
  apply alike_bind; [apply alike_settle|]. intros op0.
  apply alike_bind; [apply pollLoop_alike|]. intros opn.
  destruct (response opn) as [resp|]; [|apply alike_throw].
  destruct (generatedVideos resp) as [[|g gvs]|]; try apply alike_throw.
  apply Promise_all_alike.
  generalize (g :: gvs). intros l.
  induction l as [|g' l IH]; cbn [List.map]; constructor;
    [apply startFetch_alike|exact IH].
Qed.

Lemma awaitGeneration_alike fuel greeting p started resume :
  let r1 := awaitGeneration fuel w1 greeting p started resume in
  let r2 := awaitGeneration fuel w2 greeting p started resume in
  (forall result t, Forall2 (SameCall k1 k2) t t ->
     Forall2 (SameCall k1 k2) (snd (resume result started) ++ t)
                              (snd (resume result started) ++ t)) ->
  settled r1 = settled r2
  /\ final r1 = final r2
  /\ Forall2 (SameCall k1 k2) (calls r1) (calls r2).
Proof.
  intros r1 r2 Hresume. subst r1 r2. unfold awaitGeneration.
  destruct (generateVideoFromText_alike fuel p) as [Ho Ht].
  destruct (generateVideoFromText fuel w1 p) as [o1 t1],
           (generateVideoFromText fuel w2 p) as [o2 t2].
  cbn [fst snd] in Ho, Ht. subst o2. cbn [bind emit].
  assert (Hlog : Forall2 (SameCall k1 k2)
                   ([EvLog [greeting; p]] ++ t1) ([EvLog [greeting; p]] ++ t2))
    by (constructor; [constructor|exact Ht]).
  destruct o1 as [l|e|].
  - specialize (Hresume (inr l) [] (List.Forall2_nil _)).
    destruct (resume (inr l) started) as [s' t']. cbn [settled final calls snd] in *.
    rewrite app_nil_r in Hresume.
    repeat split. now apply Forall2_app.
  - specialize (Hresume (inl e) [] (List.Forall2_nil _)).
    destruct (resume (inl e) started) as [s' t']. cbn [settled final calls snd] in *.
    rewrite app_nil_r in Hresume.
    repeat split. now apply Forall2_app.
  - cbn [settled final calls]. repeat split. exact Hlog.
Qed.

Lemma resume_calls_alike_remix uuid date v result s t :
  Forall2 (SameCall k1 k2) t t ->
  Forall2 (SameCall k1 k2)
    (snd (handleSaveEdit_resume uuid date v result s) ++ t)
    (snd (handleSaveEdit_resume uuid date v result s) ++ t).
Proof.
  intros Ht. destruct result as [e|[|src l]]; cbn; constructor;
    solve [constructor | exact Ht].
Qed.

Lemma resume_calls_alike_prompt uuid date p result s t :
  Forall2 (SameCall k1 k2) t t ->
  Forall2 (SameCall k1 k2)
    (snd (handleGenerateNewVideo_resume uuid date p result s) ++ t)
    (snd (handleGenerateNewVideo_resume uuid date p result s) ++ t).
Proof.
  intros Ht. destruct result as [e|[|src l]]; cbn; constructor;
    solve [constructor | exact Ht].
Qed.

Lemma handleSaveEdit_alike fuel v s :
  let r1 := handleSaveEdit fuel w1 v s in
  let r2 := handleSaveEdit fuel w2 v s in
  settled r1 = settled r2
  /\ final r1 = final r2
  /\ Forall2 (SameCall k1 k2) (calls r1) (calls r2).
Proof.
  unfold handleSaveEdit.
  rewrite (same_randomUUID w1 w2 Hsame), (same_now w1 w2 Hsame).
  apply awaitGeneration_alike. intros result t.
  apply resume_calls_alike_remix.
Qed.

Lemma handleGenerateNewVideo_alike fuel s :
  let r1 := handleGenerateNewVideo fuel w1 s in
  let r2 := handleGenerateNewVideo fuel w2 s in
  settled r1 = settled r2
  /\ final r1 = final r2
  /\ Forall2 (SameCall k1 k2) (calls r1) (calls r2).
Proof.
  unfold handleGenerateNewVideo.
  destruct (negb (truthy (trim (newVideoPrompt s)))).
  - cbn. repeat split. constructor.
  - rewrite (same_randomUUID w1 w2 Hsame), (same_now w1 w2 Hsame).
    apply awaitGeneration_alike. intros result t.
    apply resume_calls_alike_prompt.
Qed.

End Key.

(** C8: the key is handed on as it is. The SDK client is built with
    [process.env.API_KEY] itself. When the job is done, every generated
    video whose URI decodes is fetched, in order, from the decoded URI
    followed by [&key=] and the key, a key that is a string being written
    as it is. And for two worlds that differ in the key only,
    [generateVideoFromText] and the two handlers end alike, leave the same
    state, and make the same calls but for the key at the end of each
    fetched URL. *)
Theorem api_key_is_passed_through (fuel : nat) (w1 w2 : World) :
  SameButKey w1 w2 ->
  let k1 := interpolate (API_KEY w1) in
  let k2 := interpolate (API_KEY w2) in
  (apiKey (ai w1) = API_KEY w1 /\ apiKey (ai w2) = API_KEY w2)
  /\ (forall p,
        AlikeButKey k1 k2 (generateVideoFromText fuel w1 p)
                          (generateVideoFromText fuel w2 p))
  /\ (forall v s,
        settled (handleSaveEdit fuel w1 v s) = settled (handleSaveEdit fuel w2 v s)
        /\ final (handleSaveEdit fuel w1 v s) = final (handleSaveEdit fuel w2 v s)
        /\ Forall2 (SameCall k1 k2) (calls (handleSaveEdit fuel w1 v s))
                                    (calls (handleSaveEdit fuel w2 v s)))
  /\ (forall s,
        settled (handleGenerateNewVideo fuel w1 s)
        = settled (handleGenerateNewVideo fuel w2 s)
        /\ final (handleGenerateNewVideo fuel w1 s)
           = final (handleGenerateNewVideo fuel w2 s)
        /\ Forall2 (SameCall k1 k2) (calls (handleGenerateNewVideo fuel w1 s))
                                    (calls (handleGenerateNewVideo fuel w2 s)))
  /\ (forall p op0 ops opn resp gvs urls,
        generateVideos w1 (submitted p) = inr op0 ->
        Polls w1 0 op0 ops (inr opn) ->
        (length ops <= fuel)%nat ->
        response opn = Some resp ->
        generatedVideos resp = Some gvs ->
        Forall2 (Decodes w1) gvs urls ->
        List.filter isFetch (snd (generateVideoFromText fuel w1 p))
        = List.map (fun url => EvFetch (url ++ lit "&key=" ++ k1)) urls
        /\ List.filter isFetch (snd (generateVideoFromText fuel w2 p))
           = List.map (fun url => EvFetch (url ++ lit "&key=" ++ k2)) urls)
  /\ (forall key, API_KEY w1 = Some key -> k1 = key).
Proof.
  intros Hsame k1 k2. split; [split; reflexivity|].
  split; [|split; [|split; [|split]]].
  - intros p. now apply generateVideoFromText_alike.
  - intros v s. now apply handleSaveEdit_alike.
  - intros s. now apply handleGenerateNewVideo_alike.
  - intros p op0 ops opn resp gvs urls Hcreate Hpolls Hfuel Hresp Hgvs Hdec.
    split.
    + exact (fetches_of_a_done_job fuel w1 p op0 ops opn resp gvs urls
               Hcreate Hpolls Hfuel Hresp Hgvs Hdec).
    + apply (fetches_of_a_done_job fuel w2 p op0 ops opn resp gvs urls);
        try assumption.
      * now rewrite <- (same_generateVideos w1 w2 Hsame).
      * now apply (Polls_alike w1 w2 Hsame).
      * now apply (Decodes_alike w1 w2 Hsame).
  - intros key Hkey. subst k1. now rewrite Hkey.
Qed.

Lemma sample_SameButKey key1 key2 :
  SameButKey (Sample.world key1) (Sample.world key2).
Proof. constructor; intros; reflexivity. Defined.

Lemma api_key_is_passed_through_witness :
  let w1 := Sample.world (Some (lit "K1")) in
  let w2 := Sample.world None in
  let r1 := handleGenerateNewVideo 5 w1 Sample.prompted in
  let r2 := handleGenerateNewVideo 5 w2 Sample.prompted in
  (settled r1 = settled r2
   /\ final r1 = final r2
   /\ Forall2 (SameCall (lit "K1") (lit "undefined")) (calls r1) (calls r2))
  /\ List.filter isFetch (snd (generateVideoFromText 5 w1 (lit "a koala")))
     = [EvFetch (lit "https://v.example/1?alt=media" ++ lit "&key=" ++ lit "K1")]
  /\ List.filter isFetch (snd (generateVideoFromText 5 w2 (lit "a koala")))
     = [EvFetch (lit "https://v.example/1?alt=media" ++ lit "&key=" ++ lit "undefined")].
Proof.
  intros w1 w2.
  pose proof (api_key_is_passed_through 5 w1 w2
                (sample_SameButKey (Some (lit "K1")) None))
    as (_ & _ & _ & Hhandler & Hfetch & _).
  split; [exact (Hhandler Sample.prompted)|].
  apply (Hfetch (lit "a koala") Sample.running
           [Sample.running; Sample.running; Sample.running] Sample.finished
           {| generatedVideos :=
                Some [ {| video := Some {| uri := Some (lit "https://v.example/1?alt=media") |} |} ] |}
           [ {| video := Some {| uri := Some (lit "https://v.example/1?alt=media") |} |} ]
           [lit "https://v.example/1?alt=media"]).
  - reflexivity.
  - apply sample_Polls.
  - cbn. lia.
  - reflexivity.
  - reflexivity.
  - constructor; [|constructor].
    exists {| uri := Some (lit "https://v.example/1?alt=media") |}.
    split; reflexivity.
Defined.

Example fetched_url_carries_the_key :
  List.filter (fun ev => match ev with EvFetch _ => true | _ => false end)
    (calls (handleGenerateNewVideo 5 (Sample.world (Some (lit "K1"))) Sample.prompted))
  = [EvFetch (lit "https://v.example/1?alt=media&key=K1")].
Proof. reflexivity. Qed.

(* ===================================================================== *)
(** ** HistoryPage *)
(* ===================================================================== *)

Section Sorting.

Lemma sortedInsert_Permutation (x : HistoryVideo) l :
  Permutation (sortedInsert newestFirst x l) (x :: l).
Proof.
  induction l as [|y l IH]; cbn [sortedInsert]; [reflexivity|].
  destruct (newestFirst x y <=? 0)%Z; [reflexivity|].
  rewrite IH. apply perm_swap.
Qed.

Lemma Array_sort_Permutation (l : list HistoryVideo) :
  Permutation (Array_sort newestFirst l) l.
Proof.
  induction l as [|x l IH]; cbn [Array_sort]; [reflexivity|].
  rewrite sortedInsert_Permutation. now constructor.
Qed.

Lemma sortedInsert_sorted (x : HistoryVideo) l :
  StronglySorted notOlder l ->
  StronglySorted notOlder (sortedInsert newestFirst x l).
Proof.
  induction 1 as [|y l Hsorted IH Hall]; cbn [sortedInsert].
  - repeat constructor.
  - unfold newestFirst at 1.
    destruct (createdAt y - createdAt x <=? 0)%Z eqn:Hcmp.
    + apply Z.leb_le in Hcmp.
      constructor; [now constructor|].
      constructor; [unfold notOlder; lia|].
      eapply List.Forall_impl; [|exact Hall].
      unfold notOlder. intros z Hz. lia.
    + apply Z.leb_gt in Hcmp.
      constructor; [exact IH|].
      rewrite (sortedInsert_Permutation x l).
      constructor; [unfold notOlder; lia|exact Hall].
Qed.

Lemma Array_sort_sorted (l : list HistoryVideo) :
  StronglySorted notOlder (Array_sort newestFirst l).
Proof.
  induction l as [|x l IH]; cbn [Array_sort]; [constructor|].
  now apply sortedInsert_sorted.
Qed.

End Sorting.

Example history_sample :
  fst <$> HistoryPage {[ 1%positive := [Sample.older; Sample.newer; Sample.middle] ]}
                      1%positive None
  = Some (CardList (List.map (cardOf None)
                             [Sample.newer; Sample.middle; Sample.older])).
Proof. vm_compute. reflexivity. Qed.

(** C10: for an empty history [HistoryPage] shows the empty-state message
    and no card; otherwise it shows one card per video, the videos ordered
    by [createdAt] from the newest to the oldest. Either way every array
    that was in the heap, the [videos] prop among them, holds what it held
    before. *)
Theorem HistoryPage_shows_newest_first
    (h : Heap) (videos : positive) (elements : list HistoryVideo)
    (loadingVideoId : option jsstring) :
  h !! videos = Some elements ->
  exists shown h',
    HistoryPage h videos loadingVideoId = Some (shown, h')
    /\ h' !! videos = Some elements
    /\ (forall a l, h !! a = Some l -> h' !! a = Some l)
    /\ match elements with
       | [] => shown = NoVideosGeneratedYet
       | _ :: _ =>
           exists sortedVideos,
             shown = CardList (List.map (cardOf loadingVideoId) sortedVideos)
             /\ Permutation sortedVideos elements
             /\ StronglySorted notOlder sortedVideos
       end.
Proof.
  intros Hvideos. unfold HistoryPage. rewrite Hvideos.
  destruct elements as [|x elements].
  - exists NoVideosGeneratedYet, h. cbn. auto.
  - cbn [length Nat.eqb].
    set (copy := fresh (dom h)).
    assert (Hfresh : h !! copy = None)
      by (apply not_elem_of_dom; apply is_fresh).
    rewrite lookup_alter_eq, lookup_insert_eq. cbn [fmap option_fmap option_map].
    eexists _, _. split; [reflexivity|].
    assert (Hkept : forall a l,
               h !! a = Some l ->
               alter (Array_sort newestFirst) copy
                     (<[copy := x :: elements]> h) !! a = Some l).
    { intros a l Ha.
      assert (copy <> a) by congruence.
      now rewrite lookup_alter_ne, lookup_insert_ne. }
    split; [now apply Hkept|]. split; [exact Hkept|].
    exists (Array_sort newestFirst (x :: elements)).
    split; [reflexivity|].
    split; [apply Array_sort_Permutation|apply Array_sort_sorted].
Qed.

Lemma HistoryPage_shows_newest_first_witness :
  let h : Heap := {[ 1%positive := [Sample.older; Sample.newer; Sample.middle] ]} in
  exists shown h',
    HistoryPage h 1%positive None = Some (shown, h')
    /\ h' !! 1%positive = Some [Sample.older; Sample.newer; Sample.middle]
    /\ (forall a l, h !! a = Some l -> h' !! a = Some l)
    /\ exists sortedVideos,
         shown = CardList (List.map (cardOf None) sortedVideos)
         /\ Permutation sortedVideos [Sample.older; Sample.newer; Sample.middle]
         /\ StronglySorted notOlder sortedVideos.
Proof.
  intros h.
  apply (HistoryPage_shows_newest_first h 1%positive
           [Sample.older; Sample.newer; Sample.middle] None).
  reflexivity.
Defined.

(* ===================================================================== *)
(** ** More on strings *)
(* ===================================================================== *)

Lemma trimStart_head s c rest :
  trimStart s = c :: rest -> isWhiteSpace c = false.
Proof.
  induction s as [|a s IH]; cbn [trimStart]; [discriminate|].
  destruct (isWhiteSpace a) eqn:Ha; [exact IH|].
  intros [= <- _]. exact Ha.
Qed.

Lemma trimStart_snoc l c :
  isWhiteSpace c = false -> trimStart (l ++ [c]) = trimStart l ++ [c].
Proof.
  intros Hc. induction l as [|a l IH]; cbn [trimStart List.app].
  - now rewrite Hc.
  - destruct (isWhiteSpace a); [exact IH|reflexivity].
Qed.

Lemma trimEnd_cons c t :
  isWhiteSpace c = false -> trimEnd (c :: t) = c :: trimEnd t.
Proof.
  intros Hc. unfold trimEnd. cbn [rev].
  rewrite (trimStart_snoc (rev t) c Hc), List.rev_app_distr. reflexivity.
Qed.

Lemma trimEnd_last s c front :
  trimEnd s = front ++ [c] -> isWhiteSpace c = false.
Proof.
  unfold trimEnd. intros H. apply (f_equal (@rev N)) in H.
  rewrite List.rev_involutive, List.rev_app_distr in H. cbn in H.
  exact (trimStart_head _ _ _ H).
Qed.

Lemma trim_Trimmed s : Trimmed (trim s).
Proof.
  unfold trim. split.
  - intros c rest H.
    destruct (trimStart s) as [|c' t'] eqn:Hs; [discriminate H|].
    pose proof (trimStart_head s c' t' Hs) as Hc'.
    rewrite (trimEnd_cons c' t' Hc') in H. now injection H as -> _.
  - intros c front H. exact (trimEnd_last _ _ _ H).
Qed.

(* ===================================================================== *)
(** ** Every run of generateVideoFromText *)
(* ===================================================================== *)

Lemma pollLoop_shape fuel w :
  forall k op,
  exists ops,
    snd (pollLoop fuel w k op) = flat_map pollCalls ops
    /\ (length ops <= fuel)%nat
    /\ Forall (fun o => done o = false) ops
    /\ (forall opn, fst (pollLoop fuel w k op) = Fulfilled opn ->
                    Polls w k op ops (inr opn)).
Proof.
  induction fuel as [|fuel IH]; intros k op.
  - exists []. destruct (done op) eqn:Hd.
    + rewrite (pollLoop_done 0 w k op Hd). cbn. repeat split; auto.
      intros opn [= <-]. now constructor.
    + rewrite (pollLoop_out_of_fuel w k op Hd). cbn. repeat split; auto.
      discriminate.
  - destruct (done op) eqn:Hd.
    + exists []. rewrite (pollLoop_done _ w k op Hd). cbn.
      repeat split; auto; [lia|]. intros opn [= <-]. now constructor.
    + destruct (getVideosOperation w k op) as [e|op'] eqn:Hr.
      * exists [op]. rewrite (pollLoop_rejected fuel w k op e Hd Hr). cbn.
        repeat split; auto; [lia|]. discriminate.
      * destruct (IH (S k) op') as (ops & Ht & Hlen & Hnd & Hful).
        exists (op :: ops). rewrite (pollLoop_next fuel w k op op' Hd Hr).
        cbn [fst snd]. rewrite Ht. repeat split.
        -- cbn [length]. lia.
        -- now constructor.
        -- intros opn Hopn. apply (Polls_next w k op op'); auto.
Qed.

Lemma fetchGeneratedVideo_shape w g :
  snd (fetchGeneratedVideo w g) = []
  \/ exists url,
       snd (fetchGeneratedVideo w g)
       = [EvFetch (url ++ lit "&key=" ++ interpolate (API_KEY w))].
Proof.
  unfold fetchGeneratedVideo, bloblToBase64.
  destruct (video g) as [v|]; [|now left]. cbn [bind ret].
  destruct (decodeURIComponent w _) as [url|]; [|now left].
  right. exists url. cbn [bind ret emit].
  destruct (fetch w _) as [e|res]; [reflexivity|]. cbn [bind settle ret].
  destruct (ok res); [|reflexivity]. cbn [negb].
  destruct (body res) as [e|blob]; [reflexivity|]. cbn [bind settle ret].
  now destruct (readAsDataURL w blob).
Qed.

Lemma Promise_all_shape w gvs :
  exists urls,
    snd (Promise_all (List.map (startFetch w) gvs))
    = List.map (fun u => EvFetch (u ++ lit "&key=" ++ interpolate (API_KEY w))) urls
    /\ (length urls <= length gvs)%nat.
Proof.
  rewrite Promise_all_snd.
  induction gvs as [|g gvs (urls & Ht & Hlen)].
  - exists []. split; [reflexivity|cbn; lia].
  - cbn [List.map concat]. rewrite Ht. unfold startFetch at 1. cbn [snd].
    destruct (fetchGeneratedVideo_shape w g) as [-> | [url ->]].
    + exists urls. split; [reflexivity|cbn; lia].
    + exists (url :: urls). split; [reflexivity|cbn; lia].
Qed.

(** X1: whatever the world answers, the calls of [generateVideoFromText]
    are, in this order: the one submission; for each operation that was not
    done, a 10 s timer, the log line and the poll; and then fetches, each of
    a URL that ends with [&key=] and the key. There is a fetch only after
    the job has reported done. *)
Theorem generateVideoFromText_calls_in_order
    (fuel : nat) (w : World) (p : jsstring) :
  exists ops urls,
    snd (generateVideoFromText fuel w p)
    = [EvGenerateVideos (submitted p)]
      ++ flat_map pollCalls ops
      ++ List.map (fun u => EvFetch (u ++ lit "&key=" ++ interpolate (API_KEY w)))
                  urls
    /\ (length ops <= fuel)%nat
    /\ Forall (fun o => done o = false) ops
    /\ (urls <> [] ->
        exists op0 opn,
          generateVideos w (submitted p) = inr op0
          /\ Polls w 0 op0 ops (inr opn)).
Proof.
  unfold generateVideoFromText. cbv zeta.
  change (mkParams VEO_MODEL_NAME p (mkConfig 1 (lit "16:9"))) with (submitted p).
  destruct (generateVideos w (submitted p)) as [e|op0] eqn:Hc.
  { exists [], []. cbn. repeat split; auto; [lia|congruence]. }
  cbn [bind emit settle ret].
  destruct (pollLoop_shape fuel w 0 op0) as (ops & Ht & Hlen & Hnd & Hful).
  destruct (pollLoop fuel w 0 op0) as [[opn|e|] t] eqn:Hpoll;
    cbn [fst snd bind] in *; subst t.
  2,3: exists ops, []; cbn [List.map]; rewrite !app_nil_r;
       repeat split; auto; congruence.
  assert (Hno : exists ops' urls',
             [EvGenerateVideos (submitted p)] ++ flat_map pollCalls ops
             = [EvGenerateVideos (submitted p)] ++ flat_map pollCalls ops'
               ++ List.map (fun u => EvFetch (u ++ lit "&key=" ++ interpolate (API_KEY w))) urls'
             /\ (length ops' <= fuel)%nat
             /\ Forall (fun o => done o = false) ops'
             /\ (urls' <> [] ->
                 exists op0' opn',
                   inr op0 = @inr JsError Operation op0'
                   /\ Polls w 0 op0' ops' (inr opn'))).
  { exists ops, []. cbn [List.map]. rewrite app_nil_r.
    repeat split; auto; congruence. }
  destruct (response opn) as [resp|];
    [|cbn [throw]; rewrite app_nil_r; exact Hno].
  destruct (generatedVideos resp) as [[|g gvs]|];
    try (cbn [throw]; rewrite app_nil_r; exact Hno).
  destruct (Promise_all_shape w (g :: gvs)) as (urls & Hurls & _).
  destruct (Promise_all _) as [os ts]. cbn [snd] in Hurls. subst ts.
  exists ops, urls. repeat split; auto.
  intros _. exists op0, opn. split; [reflexivity|]. now apply Hful.
Qed.

(** X2: when [generateVideoFromText] is fulfilled, the job was created and
    polled to a done operation whose response holds at least one generated
    video, every one of them was downloaded, and the result has one entry
    per generated video, in their order; so it is never the empty array. *)
Theorem generateVideoFromText_fulfilled_only_by_downloads
    (fuel : nat) (w : World) (p : jsstring) (l : list (option jsstring)) :
  fst (generateVideoFromText fuel w p) = Fulfilled l ->
  exists op0 ops opn resp gvs,
    generateVideos w (submitted p) = inr op0
    /\ Polls w 0 op0 ops (inr opn)
    /\ response opn = Some resp
    /\ generatedVideos resp = Some gvs
    /\ Forall2 (fun g src => fst (fetchGeneratedVideo w g) = Fulfilled src) gvs l
    /\ length l = length gvs
    /\ l <> [].
Proof.
  unfold generateVideoFromText. cbv zeta.
  change (mkParams VEO_MODEL_NAME p (mkConfig 1 (lit "16:9"))) with (submitted p).
  intros H. rewrite bind_fst in H. cbn [emit fst] in H.
  rewrite bind_fst in H.
  destruct (generateVideos w (submitted p)) as [e|op0] eqn:Hc; [discriminate|].
  cbn [settle ret fst] in H. rewrite bind_fst in H.
  destruct (pollLoop_shape fuel w 0 op0) as (ops & _ & _ & _ & Hful).
  destruct (pollLoop fuel w 0 op0) as [[opn|e|] t]; cbn [fst] in *;
    try discriminate.
  destruct (response opn) as [resp|] eqn:Hresp; [|discriminate].
  destruct (generatedVideos resp) as [[|g gvs]|] eqn:Hgvs; try discriminate.
  apply Promise_all_Fulfilled in H.
  assert (Hall : Forall2 (fun g0 src => fst (fetchGeneratedVideo w g0) = Fulfilled src)
                         (g :: gvs) l).
  { clear -H. remember (g :: gvs) as all eqn:E. clear E. revert l H.
    induction all as [|g' all IH]; intros l H; inversion H; subst;
      constructor; auto. }
  exists op0, ops, opn, resp, (g :: gvs). repeat split; auto.
  - symmetry. exact (Forall2_length _ _ _ Hall).
  - inversion Hall. discriminate.
Qed.

Lemma generateVideoFromText_fulfilled_only_by_downloads_witness :
  exists op0 ops opn resp gvs,
    generateVideos (Sample.world None) (submitted (lit "a koala")) = inr op0
    /\ Polls (Sample.world None) 0 op0 ops (inr opn)
    /\ response opn = Some resp
    /\ generatedVideos resp = Some gvs
    /\ Forall2 (fun g src => fst (fetchGeneratedVideo (Sample.world None) g)
                             = Fulfilled src)
               gvs [Some (lit "AAAAIGZ0eXA=")]
    /\ length [Some (lit "AAAAIGZ0eXA=")] = length gvs
    /\ [Some (lit "AAAAIGZ0eXA=")] <> [].
Proof.
  apply (generateVideoFromText_fulfilled_only_by_downloads
           5 (Sample.world None) (lit "a koala") [Some (lit "AAAAIGZ0eXA=")]).
  reflexivity.
Defined.

(* ===================================================================== *)
(** ** Every run of the generating handlers *)
(* ===================================================================== *)

Lemma awaitGeneration_cases fuel w greeting p started resume :
  (exists l t,
      generateVideoFromText fuel w p = (Fulfilled l, t)
      /\ l <> []
      /\ awaitGeneration fuel w greeting p started resume
         = mkRun true (fst (resume (inr l) started))
                 (EvLog [greeting; p] :: t ++ snd (resume (inr l) started)))
  \/ (exists e t,
      generateVideoFromText fuel w p = (Rejected e, t)
      /\ awaitGeneration fuel w greeting p started resume
         = mkRun true (fst (resume (inl e) started))
                 (EvLog [greeting; p] :: t ++ snd (resume (inl e) started)))
  \/ (exists t,
      generateVideoFromText fuel w p = (Pending, t)
      /\ awaitGeneration fuel w greeting p started resume
         = mkRun false started (EvLog [greeting; p] :: t)).
Proof.
  destruct (generateVideoFromText fuel w p) as [[l|e|] t] eqn:Hgen.
  - left. exists l, t. split; [reflexivity|]. split.
    + apply (generateVideoFromText_nonempty fuel w p). now rewrite Hgen.
    + now apply awaitGeneration_fulfilled.
  - right. left. exists e, t. split; [reflexivity|].
    now apply awaitGeneration_rejected.
  - right. right. exists t. split; [reflexivity|].
    now apply awaitGeneration_pending.
Qed.

(** X3: whatever the world answers, a run of [handleSaveEdit] or of
    [handleGenerateNewVideo] leaves both lists as they were (it is still
    waiting, or it has set the error message, or the prompt was blank), or
    it has put the same one new video, with a [video/mp4] data URL and the
    fresh id, in front of both, shows the history and plays that video. It
    never adds more, however many videos the job generated. *)
Theorem a_run_adds_one_record_or_none (fuel : nat) (w : World) :
  (forall (originalVideo : Video) (s : State),
      let r := handleSaveEdit fuel w originalVideo s in
      (videos (final r) = videos s
       /\ generatedVideosHistory (final r) = generatedVideosHistory s
       /\ (settled r = false /\ isSaving (final r) = true
           \/ settled r = true /\ generationError (final r) = Some GENERATION_FAILED))
      \/ (exists newVideo,
            settled r = true
            /\ generationError (final r) = None
            /\ videos (final r) = newVideo :: videos s
            /\ generatedVideosHistory (final r)
               = {| toVideo := newVideo; createdAt := now w |}
                   :: generatedVideosHistory s
            /\ id newVideo = randomUUID w
            /\ isGeneratedUrl (videoUrl newVideo)
            /\ view (final r) = history
            /\ playingVideo (final r) = Some newVideo
            /\ isPlaying (final r) = true))
  /\ (forall (s : State),
      let r := handleGenerateNewVideo fuel w s in
      (videos (final r) = videos s
       /\ generatedVideosHistory (final r) = generatedVideosHistory s
       /\ (r = mkRun true s []
           \/ settled r = false /\ isSaving (final r) = true
           \/ settled r = true /\ generationError (final r) = Some GENERATION_FAILED))
      \/ (exists newVideo,
            settled r = true
            /\ generationError (final r) = None
            /\ videos (final r) = newVideo :: videos s
            /\ generatedVideosHistory (final r)
               = {| toVideo := newVideo; createdAt := now w |}
                   :: generatedVideosHistory s
            /\ id newVideo = randomUUID w
            /\ isGeneratedUrl (videoUrl newVideo)
            /\ view (final r) = history
            /\ playingVideo (final r) = Some newVideo
            /\ isPlaying (final r) = true)).
Proof.
  split.
  - intros originalVideo s r. subst r. unfold handleSaveEdit.
    destruct (awaitGeneration_cases fuel w (lit "Generating video...")
                (description originalVideo) (handleSaveEdit_start s)
                (handleSaveEdit_resume (randomUUID w) (now w) originalVideo))
      as [(l & t & _ & Hne & ->) | [(e & t & _ & ->) | (t & _ & ->)]].
    + destruct l as [|src l]; [congruence|]. right. eexists.
      repeat split; try reflexivity. exists (interpolate src). reflexivity.
    + left. repeat split; try reflexivity. right. split; reflexivity.
    + left. repeat split; try reflexivity. left. split; reflexivity.
  - intros s r. subst r. unfold handleGenerateNewVideo.
    destruct (negb (truthy (trim (newVideoPrompt s))));
      [left; repeat split; try reflexivity; left; reflexivity|].
    destruct (awaitGeneration_cases fuel w
                (lit "Generating video from new prompt...")
                (trim (newVideoPrompt s)) (handleGenerateNewVideo_start s)
                (handleGenerateNewVideo_resume (randomUUID w) (now w)
                                               (trim (newVideoPrompt s))))
      as [(l & t & _ & Hne & ->) | [(e & t & _ & ->) | (t & _ & ->)]].
    + destruct l as [|src l]; [congruence|]. right. eexists.
      repeat split; try reflexivity. exists (interpolate src). reflexivity.
    + left. repeat split; try reflexivity. right. right. split; reflexivity.
    + left. repeat split; try reflexivity. right. left. split; reflexivity.
Qed.

Lemma submissions_zero_not_In t params :
  submissions t = 0%nat -> ~ In (EvGenerateVideos params) t.
Proof.
  induction t as [|ev t IH]; [auto|].
  unfold submissions in *. cbn [List.filter].
  destruct ev; cbn [isSubmit length] in *; try discriminate;
    intros Ht [Hev|Hin]; try discriminate; now apply IH.
Qed.

Lemma generateVideoFromText_submission fuel w p params :
  In (EvGenerateVideos params) (snd (generateVideoFromText fuel w p)) ->
  params = submitted p.
Proof.
  pose proof (generateVideoFromText_submits_once fuel w p) as Hone.
  revert Hone. unfold generateVideoFromText. cbv zeta.
  change (mkParams VEO_MODEL_NAME p (mkConfig 1 (lit "16:9"))) with (submitted p).
  rewrite bind_snd. cbn [emit fst snd]. rewrite submissions_app.
  change (submissions [EvGenerateVideos (submitted p)]) with 1%nat.
  intros Hrest [Hhead|Hin].
  - now injection Hhead as <-.
  - exfalso. cbn [List.app] in Hin.
    apply (submissions_zero_not_In _ params) in Hin; [exact Hin|lia].
Qed.

(** X4: the only job a run of [handleGenerateNewVideo] submits is for the
    trimmed prompt: a prompt that is not empty and has no white space at
    either end, for one video of the fixed model in 16:9. *)
Theorem new_video_prompt_is_submitted_trimmed
    (fuel : nat) (w : World) (s : State) (params : GenerateVideosParameters) :
  In (EvGenerateVideos params) (calls (handleGenerateNewVideo fuel w s)) ->
  params = {| model := lit "veo-2.0-generate-001";
              prompt := trim (newVideoPrompt s);
              config := {| numberOfVideos := 1; aspectRatio := lit "16:9" |} |}
  /\ prompt params <> []
  /\ Trimmed (prompt params).
Proof.
  unfold handleGenerateNewVideo.
  destruct (trim (newVideoPrompt s)) as [|c rest] eqn:Hp; cbn [truthy negb].
  { intros []. }
  rewrite <- Hp. intros Hin.
  assert (Hparams : params = submitted (trim (newVideoPrompt s))).
  { destruct (awaitGeneration_cases fuel w
                (lit "Generating video from new prompt...")
                (trim (newVideoPrompt s)) (handleGenerateNewVideo_start s)
                (handleGenerateNewVideo_resume (randomUUID w) (now w)
                                               (trim (newVideoPrompt s))))
      as [(l & t & Hgen & Hne & Hrun) | [(e & t & Hgen & Hrun) | (t & Hgen & Hrun)]];
      rewrite Hrun in Hin; cbn [calls] in Hin;
      destruct Hin as [Hlog|Hin]; try discriminate Hlog;
      try (apply in_app_or in Hin as [Hin|Hin]);
      try (apply (generateVideoFromText_submission fuel w);
           rewrite Hgen; exact Hin).
    - destruct l as [|src l]; [congruence|].
      destruct Hin as [Hin|[]]; discriminate Hin.
    - destruct Hin as [Hin|[]]; discriminate Hin. }
  subst params. split; [reflexivity|]. cbn [prompt submitted].
  split; [congruence|apply trim_Trimmed].
Qed.

Lemma new_video_prompt_is_submitted_trimmed_witness :
  submitted (lit "a koala")
  = {| model := lit "veo-2.0-generate-001";
       prompt := trim (newVideoPrompt Sample.prompted);
       config := {| numberOfVideos := 1; aspectRatio := lit "16:9" |} |}
  /\ prompt (submitted (lit "a koala")) <> []
  /\ Trimmed (prompt (submitted (lit "a koala"))).
Proof.
  apply (new_video_prompt_is_submitted_trimmed 5 (Sample.world None)
           Sample.prompted (submitted (lit "a koala"))).
  cbn. right. left. reflexivity.
Defined.

(* ===================================================================== *)
(** ** bloblToBase64 *)
(* ===================================================================== *)

Lemma split_no_separator sep s :
  Forall (fun c => c <> sep) s -> split sep s = [s].
Proof.
  induction 1 as [|c s Hc _ IH]; cbn [split]; [reflexivity|].
  destruct (N.eqb_spec c sep) as [->|_]; [congruence|]. now rewrite IH.
Qed.

Lemma split_at_first_separator sep header rest :
  Forall (fun c => c <> sep) header ->
  split sep (header ++ sep :: rest) = header :: split sep rest.
Proof.
  induction 1 as [|c s Hc _ IH]; cbn [split List.app].
  - now rewrite N.eqb_refl.
  - destruct (N.eqb_spec c sep) as [->|_]; [congruence|]. now rewrite IH.
Qed.

(** X5: [bloblToBase64] gives back the payload of the data URL the reader
    produced: for a result made of a header without a comma, a comma and a
    payload without a comma (as base64 text is), the promise is fulfilled
    with exactly the payload, whatever the header says the type is. *)
Theorem bloblToBase64_gives_the_payload
    (w : World) (blob : Blob) (header payload : jsstring) :
  readAsDataURL w blob = Some (header ++ lit "," ++ payload) ->
  Forall (fun c => c <> 44) header ->
  Forall (fun c => c <> 44) payload ->
  bloblToBase64 w blob = (Fulfilled (Some payload), []).
Proof.
  intros Hread Hheader Hpayload. unfold bloblToBase64. rewrite Hread.
  change (lit "," ++ payload) with (44 :: payload).
  rewrite (split_at_first_separator 44 header payload Hheader).
  now rewrite (split_no_separator 44 payload Hpayload).
Qed.

Lemma bloblToBase64_gives_the_payload_witness :
  bloblToBase64 (Sample.world None) 7 = (Fulfilled (Some (lit "AAAAIGZ0eXA=")), []).
Proof.
  apply (bloblToBase64_gives_the_payload (Sample.world None) 7
           (lit "data:video/mp4;base64") (lit "AAAAIGZ0eXA=")).
  - reflexivity.
  - repeat constructor; discriminate.
  - repeat constructor; discriminate.
Defined.

(** X6: a reader result without a comma is not treated as a failure.
    [bloblToBase64] is fulfilled with [undefined]; and when that is the first
    entry [generateVideoFromText] returns, both handlers report no error and
    add a video whose URL is [data:video/mp4;base64,undefined]. *)
Theorem result_without_comma_gives_undefined_url
    (fuel : nat) (w : World) :
  (forall (blob : Blob) (dataUrl : jsstring),
      readAsDataURL w blob = Some dataUrl ->
      Forall (fun c => c <> 44) dataUrl ->
      bloblToBase64 w blob = (Fulfilled None, []))
  /\ (forall (p : jsstring) (l : list (option jsstring)) (t : list Event),
      generateVideoFromText fuel w p = (Fulfilled (None :: l), t) ->
      (forall (originalVideo : Video) (s : State),
          description originalVideo = p ->
          let r := handleSaveEdit fuel w originalVideo s in
          generationError (final r) = None
          /\ exists newVideo,
               videos (final r) = newVideo :: videos s
               /\ videoUrl newVideo = lit "data:video/mp4;base64,undefined")
      /\ (forall (s : State),
          trim (newVideoPrompt s) = p ->
          p <> [] ->
          let r := handleGenerateNewVideo fuel w s in
          generationError (final r) = None
          /\ exists newVideo,
               videos (final r) = newVideo :: videos s
               /\ videoUrl newVideo = lit "data:video/mp4;base64,undefined")).
Proof.
  split.
  - intros blob dataUrl Hread Hno. unfold bloblToBase64. rewrite Hread.
    now rewrite (split_no_separator 44 dataUrl Hno).
  - intros p l t Hgen. split.
    + intros originalVideo s Hp r. subst r p. unfold handleSaveEdit.
      rewrite (awaitGeneration_fulfilled _ _ _ _ _ _ _ _ Hgen).
      split; [reflexivity|]. eexists. split; reflexivity.
    + intros s Hp Hne r. subst r p.
      rewrite (handleGenerateNewVideo_started fuel w s Hne).
      rewrite (awaitGeneration_fulfilled _ _ _ _ _ _ _ _ Hgen).
      split; [reflexivity|]. eexists. split; reflexivity.
Qed.

Lemma result_without_comma_gives_undefined_url_witness :
  bloblToBase64 commaless 7 = (Fulfilled None, [])
  /\ let r := handleSaveEdit 0 commaless Sample.clip Sample.editingClip in
     generationError (final r) = None
     /\ exists newVideo,
          videos (final r) = newVideo :: videos Sample.editingClip
          /\ videoUrl newVideo = lit "data:video/mp4;base64,undefined".
Proof.
  destruct (result_without_comma_gives_undefined_url 0 commaless) as [Hblob Hrun].
  split.
  - apply (Hblob 7 (lit "data:")); [reflexivity|].
    repeat constructor; discriminate.
  - refine (proj1 (Hrun (description Sample.clip) []
                        [EvGenerateVideos (submitted (description Sample.clip));
                         EvFetch (lit "https://v.example/1?alt=media&key=k")] _)
                  Sample.clip Sample.editingClip _); reflexivity.
Defined.

(* ===================================================================== *)
(** ** More invariants of the page *)
(* ===================================================================== *)

Lemma dispatch_lists a s :
  videos (fst (dispatch a s)) = videos s
  /\ generatedVideosHistory (fst (dispatch a s)) = generatedVideosHistory s.
Proof.
  destruct a; cbn [dispatch fst]; try (split; reflexivity).
  destruct (negb (truthy _)); split; reflexivity.
Qed.

Lemma resume_gallery M r uuid date result s :
  GalleryCoherent M s -> GalleryCoherent M (resume r uuid date result s).
Proof.
  intros [Hv Hh]. unfold GalleryCoherent.
  destruct r as [v|p]; destruct result as [e|[|src l]];
    cbn [resume fst handleSaveEdit_resume handleGenerateNewVideo_resume catchBlock];
    try (split; [exact Hv|exact Hh]).
  - split.
    + change (videos _) with (mkVideo uuid
                (lit "data:" ++ lit "video/mp4" ++ lit ";base64," ++ interpolate src)
                (lit "Remix of " ++ dquote ++ title v ++ dquote) (description v)
                :: videos s).
      rewrite Hv. reflexivity.
    + constructor; [|exact Hh]. exists (interpolate src). reflexivity.
  - split.
    + change (videos _) with (mkVideo uuid
                (lit "data:" ++ lit "video/mp4" ++ lit ";base64," ++ interpolate src)
                (lit "Generated: " ++ dquote ++ substring0 40 p
                 ++ (if (40 <? length p)%nat then lit "..." else []) ++ dquote) p
                :: videos s).
      rewrite Hv. reflexivity.
    + constructor; [|exact Hh]. exists (interpolate src). reflexivity.
Qed.

Lemma step_gallery M b i b' :
  GalleryCoherent M (app b) -> step M b i = Some b' -> GalleryCoherent M (app b').
Proof.
  intros Hg Hstep. destruct i as [a|idx result uuid date|]; cbn in Hstep.
  - destruct (offers _ a); [|discriminate].
    destruct (dispatch_lists a (app b)) as [Hv Hh].
    destruct (dispatch a (app b)) as [s' started]. cbn [fst] in *.
    injection Hstep as <-. cbn [app]. unfold GalleryCoherent.
    rewrite Hv, Hh. exact Hg.
  - destruct (inFlight b !! idx) as [r|]; [|discriminate].
    injection Hstep as <-. cbn [app]. now apply resume_gallery.
  - injection Hstep as <-. split; [reflexivity|constructor].
Qed.

Lemma run_gallery M inputs :
  forall b b',
    GalleryCoherent M (app b) -> run M b inputs = Some b' ->
    GalleryCoherent M (app b').
Proof.
  induction inputs as [|i inputs IH]; intros b b' Hg Hrun; cbn in Hrun.
  - now injection Hrun as <-.
  - destruct (step M b i) as [b1|] eqn:Hstep; [|discriminate].
    exact (IH b1 b' (step_gallery M b i b1 Hg Hstep) Hrun).
Qed.

(** X7: on every page reached from a load, the gallery list is the
    generated history (each entry as a plain video, the latest generation
    first) followed by the videos the page was loaded with; and every video
    of the history has a [data:video/mp4;base64,] URL. *)
Theorem gallery_is_history_then_mock_videos
    (MOCK_VIDEOS : list Video) (stored : list (jsstring * jsstring))
    (inputs : list Input) (b : Browser) :
  run MOCK_VIDEOS (load MOCK_VIDEOS stored) inputs = Some b ->
  videos (app b)
  = List.map toVideo (generatedVideosHistory (app b)) ++ MOCK_VIDEOS
  /\ Forall (fun hv : HistoryVideo =>
               exists src, videoUrl hv = lit "data:video/mp4;base64," ++ src)
            (generatedVideosHistory (app b)).
Proof.
  intros Hrun.
  apply (run_gallery MOCK_VIDEOS inputs (load MOCK_VIDEOS stored) b); [|exact Hrun].
  split; [reflexivity|constructor].
Qed.

Lemma gallery_is_history_then_mock_videos_witness :
  exists b,
    run [Sample.clip] (load [Sample.clip] []) Sample.session = Some b
    /\ length (generatedVideosHistory (app b)) = 1%nat
    /\ videos (app b)
       = List.map toVideo (generatedVideosHistory (app b)) ++ [Sample.clip]
    /\ Forall (fun hv : HistoryVideo =>
                 exists src, videoUrl hv = lit "data:video/mp4;base64," ++ src)
              (generatedVideosHistory (app b)).
Proof.
  eexists. split; [reflexivity|]. split; [reflexivity|].
  apply (gallery_is_history_then_mock_videos [Sample.clip] [] Sample.session).
  reflexivity.
Defined.

Lemma dispatch_indicators a s :
  offers (render s) a = true ->
  IndicatorsCoherent s ->
  IndicatorsCoherent (fst (dispatch a s)).
Proof.
  intros Hoff [Hload Herr].
  pose proof (offers_not_saving s a Hoff) as Hs.
  destruct s as [vs pv ev sv sm ge vw hs np li ip].
  cbn [isSaving loadingVideoId isPlaying generationError] in *. subst sv.
  destruct a; cbn [dispatch fst]; try (destruct (negb (truthy _)); cbn [fst]);
    unfold IndicatorsCoherent; cbn;
    (split; [first [exact Hload | intros; first [congruence | tauto]]
            | intros; first [congruence | tauto]]).
Qed.

Lemma resume_indicators r uuid date result s :
  IndicatorsCoherent s -> IndicatorsCoherent (resume r uuid date result s).
Proof.
  intros [Hload _].
  destruct s as [vs pv ev sv sm ge vw hs np li ip].
  cbn [loadingVideoId isPlaying] in Hload.
  destruct r as [v|p]; destruct result as [e|[|src l]];
    unfold IndicatorsCoherent;
    cbn [resume fst handleSaveEdit_resume handleGenerateNewVideo_resume catchBlock
         setVideos setGeneratedVideosHistory setView setPlayingVideo setIsPlaying
         setIsSaving setGenerationError setNewVideoPrompt
         loadingVideoId isPlaying isSaving generationError];
    (split; [first [exact Hload | intros; reflexivity] | discriminate]).
Qed.

Lemma step_indicators M b i b' :
  IndicatorsCoherent (app b) -> step M b i = Some b' ->
  IndicatorsCoherent (app b').
Proof.
  intros Hi Hstep. destruct i as [a|idx result uuid date|]; cbn in Hstep.
  - destruct (offers _ a) eqn:Hoff; [|discriminate].
    pose proof (dispatch_indicators a (app b) Hoff Hi) as Hd.
    destruct (dispatch a (app b)) as [s' started]. cbn [fst] in *.
    now injection Hstep as <-.
  - destruct (inFlight b !! idx) as [r|]; [|discriminate].
    injection Hstep as <-. cbn [app]. now apply resume_indicators.
  - injection Hstep as <-. split; cbn; congruence.
Qed.

Lemma run_indicators M inputs :
  forall b b',
    IndicatorsCoherent (app b) -> run M b inputs = Some b' ->
    IndicatorsCoherent (app b').
Proof.
  induction inputs as [|i inputs IH]; intros b b' Hi Hrun; cbn in Hrun.
  - now injection Hrun as <-.
  - destruct (step M b i) as [b1|] eqn:Hstep; [|discriminate].
    exact (IH b1 b' (step_indicators M b i b1 Hi Hstep) Hrun).
Qed.

(** X8: on every page reached from a load, a loading spinner is set only
    while the player is open ([isPlaying] with a [playingVideo]), and no
    error message is set while a generation is being saved: starting a
    generation clears the message of the one before. *)
Theorem spinner_and_error_follow_the_modals
    (MOCK_VIDEOS : list Video) (stored : list (jsstring * jsstring))
    (inputs : list Input) (b : Browser) :
  run MOCK_VIDEOS (load MOCK_VIDEOS stored) inputs = Some b ->
  (loadingVideoId (app b) <> None ->
   isPlaying (app b) = true /\ playingVideo (app b) <> None)
  /\ (isSaving (app b) = true -> generationError (app b) = None).
Proof.
  intros Hrun.
  destruct (run_invariant MOCK_VIDEOS inputs _ b
              (load_invariant MOCK_VIDEOS stored) Hrun) as [_ [_ Hplay]].
  destruct (run_indicators MOCK_VIDEOS inputs (load MOCK_VIDEOS stored) b)
    as [Hload Herr]; [split; cbn; congruence|exact Hrun|].
  split; [|exact Herr].
  intros Hl. pose proof (Hload Hl) as Hp. split; [exact Hp|]. now apply Hplay.
Qed.

Lemma spinner_and_error_follow_the_modals_witness :
  exists b,
    run [Sample.clip] (load [Sample.clip] [])
        [User (OnPlayVideo Sample.clip)] = Some b
    /\ loadingVideoId (app b) = Some (lit "1")
    /\ (loadingVideoId (app b) <> None ->
        isPlaying (app b) = true /\ playingVideo (app b) <> None)
    /\ (isSaving (app b) = true -> generationError (app b) = None).
Proof.
  eexists. split; [reflexivity|]. split; [reflexivity|].
  apply (spinner_and_error_follow_the_modals [Sample.clip] []
           [User (OnPlayVideo Sample.clip)]).
  reflexivity.
Defined.

(* ===================================================================== *)
(** ** The synchronous handlers and the rendered page *)
(* ===================================================================== *)

(** X9: from a page with nothing open, opening a video and closing the
    player (before or after the video has loaded) gives the page back as it
    was; so does opening a video, going to its edit page and cancelling:
    cancelling an edit does not reopen the player. *)
Theorem player_and_editor_close_cleanly (s : State) (v v' : Video) :
  playingVideo s = None ->
  loadingVideoId s = None ->
  isPlaying s = false ->
  editingVideo s = None ->
  handleClosePlayer (handlePlayVideo v s) = s
  /\ handleClosePlayer (handleVideoLoaded (handlePlayVideo v s)) = s
  /\ handleCancelEdit (handleStartEdit v' (handlePlayVideo v s)) = s.
Proof.
  destruct s as [vs pv ev sv sm ge vw hs np li ip].
  cbn [playingVideo loadingVideoId isPlaying editingVideo].
  intros -> -> -> ->. repeat split.
Qed.

Lemma player_and_editor_close_cleanly_witness :
  let s := initialState [Sample.clip] in
  handleClosePlayer (handlePlayVideo Sample.clip s) = s
  /\ handleClosePlayer (handleVideoLoaded (handlePlayVideo Sample.clip s)) = s
  /\ handleCancelEdit (handleStartEdit Sample.clip (handlePlayVideo Sample.clip s)) = s.
Proof.
  intros s.
  apply (player_and_editor_close_cleanly s Sample.clip Sample.clip);
    reflexivity.
Defined.

(** X10: whenever the main page is rendered, in any state, its prompt box
    is enabled, its button reads [Generate Video], and the button is
    disabled exactly when the trimmed prompt is empty: the page is never
    rendered with the disabled box or the [Generating...] label, for while
    [isSaving] is true only the saving screen is returned. *)
Theorem main_page_is_never_rendered_saving
    (s : State) (page : MainPage) (videoPlayer : option Video)
    (errorModal : option (list jsstring)) :
  render s = AppShell (Main page) videoPlayer errorModal ->
  isSaving s = false
  /\ promptDisabled page = false
  /\ generateLabel page = lit "Generate Video"
  /\ generateDisabled page = negb (truthy (trim (newVideoPrompt s)))
  /\ promptValue page = newVideoPrompt s.
Proof.
  unfold render. destruct (isSaving s) eqn:Hs; [discriminate|].
  destruct (editingVideo s); [discriminate|].
  intros [= <- _ _]. cbn. rewrite orb_false_r. repeat split.
Qed.

Lemma main_page_is_never_rendered_saving_witness :
  exists page videoPlayer errorModal,
    render Sample.prompted = AppShell (Main page) videoPlayer errorModal
    /\ isSaving Sample.prompted = false
    /\ promptDisabled page = false
    /\ generateLabel page = lit "Generate Video"
    /\ generateDisabled page = negb (truthy (trim (newVideoPrompt Sample.prompted)))
    /\ promptValue page = newVideoPrompt Sample.prompted.
Proof.
  eexists _, _, _. split; [reflexivity|].
  apply (main_page_is_never_rendered_saving Sample.prompted _ None None).
  reflexivity.
Defined.

(** X11: the title [handleGenerateNewVideo] gives a new video quotes the
    whole prompt when it has at most 40 code units, and otherwise its first
    40 followed by three dots; it is never longer than 56 code units. *)
Theorem generated_title_is_bounded
    (uuid : jsstring) (date : Z) (p : jsstring) (src : option jsstring)
    (l : list (option jsstring)) (s : State) :
  exists newVideo,
    videos (fst (handleGenerateNewVideo_resume uuid date p (inr (src :: l)) s))
    = newVideo :: videos s
    /\ description newVideo = p
    /\ (length (title newVideo) <= 56)%nat
    /\ ((length p <= 40)%nat ->
        title newVideo = lit "Generated: " ++ dquote ++ p ++ dquote)
    /\ ((40 < length p)%nat ->
        title newVideo
        = lit "Generated: " ++ dquote ++ take 40 p ++ lit "..." ++ dquote).
Proof.
  eexists. split; [reflexivity|]. cbn [description title].
  split; [reflexivity|].
  unfold substring0.
  destruct (Nat.ltb_spec 40 (length p)) as [Hlong|Hshort].
  - split; [|split; [lia|reflexivity]].
    rewrite !length_app, length_take.
    change (length (lit "Generated: ")) with 11%nat.
    change (length dquote) with 1%nat. change (length (lit "...")) with 3%nat.
    lia.
  - split; [|split; [|lia]].
    + rewrite !length_app, length_take.
      change (length (lit "Generated: ")) with 11%nat.
      change (length dquote) with 1%nat. change (length (@nil N)) with 0%nat.
      lia.
    + intros _. now rewrite take_ge by lia.
Qed.

(* ===================================================================== *)
(** ** More on HistoryPage *)
(* ===================================================================== *)

Lemma HistoryPage_cards (h : Heap) videos x rest loadingVideoId :
  h !! videos = Some (x :: rest) ->
  fst <$> HistoryPage h videos loadingVideoId
  = Some (CardList (List.map (cardOf loadingVideoId)
                             (Array_sort newestFirst (x :: rest)))).
Proof.
  intros Hv. unfold HistoryPage. rewrite Hv. cbn [length Nat.eqb].
  now rewrite lookup_alter_eq, lookup_insert_eq.
Qed.

Lemma Array_sort_already_sorted (l : list HistoryVideo) :
  StronglySorted notOlder l -> Array_sort newestFirst l = l.
Proof.
  induction 1 as [|x l _ IH Hall]; [reflexivity|].
  cbn [Array_sort]. rewrite IH.
  destruct Hall as [|y l Hy _]; [reflexivity|].
  cbn [sortedInsert]. unfold newestFirst, notOlder in *.
  destruct (Z.leb_spec (createdAt y - createdAt x) 0); [reflexivity|lia].
Qed.

(** X12: a history that is already newest first, ties included, is shown
    in the order of the list: one card per video, in the same order. *)
Theorem HistoryPage_keeps_a_sorted_history
    (h : Heap) (videos : positive) (x : HistoryVideo) (rest : list HistoryVideo)
    (loadingVideoId : option jsstring) :
  h !! videos = Some (x :: rest) ->
  StronglySorted notOlder (x :: rest) ->
  fst <$> HistoryPage h videos loadingVideoId
  = Some (CardList (List.map (cardOf loadingVideoId) (x :: rest))).
Proof.
  intros Hv Hsorted. rewrite (HistoryPage_cards h videos x rest _ Hv).
  now rewrite (Array_sort_already_sorted (x :: rest) Hsorted).
Qed.

Lemma HistoryPage_keeps_a_sorted_history_witness :
  fst <$> HistoryPage {[ 1%positive := [Sample.newer; Sample.middle; Sample.middle; Sample.older] ]}
                      1%positive None
  = Some (CardList (List.map (cardOf None)
                             [Sample.newer; Sample.middle; Sample.middle; Sample.older])).
Proof.
  apply (HistoryPage_keeps_a_sorted_history _ 1%positive Sample.newer
           [Sample.middle; Sample.middle; Sample.older] None).
  - reflexivity.
  - repeat constructor; unfold notOlder; cbn; lia.
Defined.

Lemma sortedInsert_same_time (x : HistoryVideo) l t :
  StronglySorted notOlder l ->
  List.filter (fun v : HistoryVideo => (createdAt v =? t)%Z)
              (sortedInsert newestFirst x l)
  = List.filter (fun v : HistoryVideo => (createdAt v =? t)%Z) (x :: l).
Proof.
  induction 1 as [|y l _ IH _]; [reflexivity|].
  cbn [sortedInsert]. unfold newestFirst at 1.
  destruct (Z.leb_spec (createdAt y - createdAt x) 0) as [_|Hgt]; [reflexivity|].
  cbn [List.filter] in *.
  destruct (Z.eqb_spec (createdAt y) t) as [Hy|_];
    destruct (Z.eqb_spec (createdAt x) t) as [Hx|_];
    rewrite IH; try reflexivity.
  lia.
Qed.

Lemma Array_sort_same_time (l : list HistoryVideo) t :
  List.filter (fun v : HistoryVideo => (createdAt v =? t)%Z)
              (Array_sort newestFirst l)
  = List.filter (fun v : HistoryVideo => (createdAt v =? t)%Z) l.
Proof.
  induction l as [|x l IH]; [reflexivity|].
  cbn [Array_sort].
  rewrite (sortedInsert_same_time x _ t (Array_sort_sorted l)).
  cbn [List.filter]. now rewrite IH.
Qed.

(** X13: videos created in the same millisecond are shown in the order
    they have in the list: for every time, the cards of the videos of that
    time come in list order. *)
Theorem HistoryPage_keeps_the_order_of_ties
    (h : Heap) (videos : positive) (x : HistoryVideo) (rest : list HistoryVideo)
    (loadingVideoId : option jsstring) :
  h !! videos = Some (x :: rest) ->
  exists shown,
    fst <$> HistoryPage h videos loadingVideoId
    = Some (CardList (List.map (cardOf loadingVideoId) shown))
    /\ forall t,
         List.filter (fun v : HistoryVideo => (createdAt v =? t)%Z) shown
         = List.filter (fun v : HistoryVideo => (createdAt v =? t)%Z) (x :: rest).
Proof.
  intros Hv. exists (Array_sort newestFirst (x :: rest)).
  split; [now apply HistoryPage_cards|].
  intros t. apply Array_sort_same_time.
Qed.

Lemma HistoryPage_keeps_the_order_of_ties_witness :
  let twin : HistoryVideo :=
    {| toVideo := {| id := lit "2"; videoUrl := []; title := []; description := [] |};
       createdAt := 20%Z |} in
  exists shown,
    fst <$> HistoryPage {[ 1%positive := [Sample.older; Sample.middle; twin] ]}
                        1%positive None
    = Some (CardList (List.map (cardOf None) shown))
    /\ forall t,
         List.filter (fun v : HistoryVideo => (createdAt v =? t)%Z) shown
         = List.filter (fun v : HistoryVideo => (createdAt v =? t)%Z)
                       [Sample.older; Sample.middle; twin].
Proof.
  intros twin.
  apply (HistoryPage_keeps_the_order_of_ties _ 1%positive Sample.older
           [Sample.middle; twin] None).
  reflexivity.
Defined.

(* ===================================================================== *)
(** ** VideoPlayer: the name of the downloaded file *)
(* ===================================================================== *)

Lemma removeOtherThanWordAndSpace_kept t :
  Forall (fun c => Web.isWordChar c || isWhiteSpace c = true)
         (Web.removeOtherThanWordAndSpace t).
Proof.
  unfold Web.removeOtherThanWordAndSpace.
  induction t as [|c t IH]; cbn [List.filter]; [constructor|].
  destruct (Web.isWordChar c || isWhiteSpace c) eqn:Hc; [|exact IH].
  constructor; [exact Hc|exact IH].
Qed.

Lemma filter_length_le {A} (f : A -> bool) l :
  (length (List.filter f l) <= length l)%nat.
Proof.
  induction l as [|x l IH]; cbn [List.filter length]; [lia|].
  destruct (f x); cbn [length]; lia.
Qed.

(** X14: the file name [handleDownload] gives the link is a stem followed
    by [.mp4], where the stem is no longer than the title and holds only
    ASCII letters, digits, underscores and white space other than the
    space: no space, slash, backslash, dot, colon or quote is left of the
    title. The link points at the video's URL, and it is appended, clicked
    and removed again. *)
Theorem download_name_is_sanitized (video : Video) :
  exists stem,
    VideoPlayer.handleDownload video
    = [ Web.CreateElement (lit "a");
        Web.SetHref (videoUrl video);
        Web.SetDownload (stem ++ lit ".mp4");
        Web.AppendChild; Web.Click; Web.RemoveChild ]
    /\ (length stem <= length (title video))%nat
    /\ Forall (fun c => Web.isWordChar c = true
                        \/ (isWhiteSpace c = true /\ c <> 0x20)) stem
    /\ Forall (fun c => c <> 0x20 /\ c <> 0x2F /\ c <> 0x5C /\ c <> 0x2E
                        /\ c <> 0x3A /\ c <> 0x22 /\ c <> 0x27) stem.
Proof.
  exists (Web.spacesToUnderscores (Web.removeOtherThanWordAndSpace (title video))).
  split; [reflexivity|]. split.
  { unfold Web.spacesToUnderscores, Web.removeOtherThanWordAndSpace.
    rewrite length_map. apply filter_length_le. }
  assert (Hchars :
    Forall (fun c => Web.isWordChar c = true
                     \/ (isWhiteSpace c = true /\ c <> 0x20))
           (Web.spacesToUnderscores
              (Web.removeOtherThanWordAndSpace (title video)))).
  { unfold Web.spacesToUnderscores.
    pose proof (removeOtherThanWordAndSpace_kept (title video)) as Hkept.
    induction Hkept as [|c t Hc _ IH]; cbn [List.map]; constructor; [|exact IH].
    destruct (N.eqb_spec c 0x20) as [->|Hne]; [left; reflexivity|].
    apply orb_true_iff in Hc as [Hc|Hc]; [now left|right; now split]. }
  split; [exact Hchars|].
  eapply List.Forall_impl; [|exact Hchars].
  intros c [Hw|[Hs Hne]].
  - repeat split; intros ->; discriminate Hw.
  - repeat split; try exact Hne; intros ->; discriminate Hs.
Qed.

Lemma spacesToUnderscores_plain t :
  Forall (fun c => c <> 0x20) t -> Web.spacesToUnderscores t = t.
Proof.
  unfold Web.spacesToUnderscores.
  induction 1 as [|c t Hc _ IH]; cbn [List.map]; [reflexivity|].
  destruct (N.eqb_spec c 0x20); [congruence|]. now rewrite IH.
Qed.

(** X15: two ends of [handleDownload]'s naming. A title of ASCII letters,
    digits, underscores and spaces keeps its length and changes only in
    that each space becomes an underscore; a title without any ASCII
    letter, digit, underscore or white space (one in another script, say)
    leaves the bare name [.mp4]. *)
Theorem download_name_of_plain_and_of_foreign_titles (video : Video) :
  (Forall (fun c => Web.isWordChar c = true \/ c = 0x20) (title video) ->
   VideoPlayer.fileName video
   = List.map (fun c => if c =? 0x20 then 0x5F else c) (title video)
     ++ lit ".mp4")
  /\ (Forall (fun c => Web.isWordChar c = false /\ isWhiteSpace c = false)
             (title video) ->
      VideoPlayer.fileName video = lit ".mp4").
Proof.
  unfold VideoPlayer.fileName, Web.removeOtherThanWordAndSpace. split.
  - intros Hplain. f_equal. unfold Web.spacesToUnderscores. f_equal.
    induction Hplain as [|c t Hc _ IH]; cbn [List.filter]; [reflexivity|].
    destruct Hc as [Hc | ->].
    + rewrite Hc. cbn [orb]. now rewrite IH.
    + cbn. now rewrite IH.
  - intros Hforeign.
    assert (Hnil : List.filter (fun c => Web.isWordChar c || isWhiteSpace c)
                               (title video) = []).
    { induction Hforeign as [|c t [Hw Hs] _ IH]; cbn [List.filter];
        [reflexivity|]. now rewrite Hw, Hs. }
    now rewrite Hnil.
Qed.

Lemma download_name_of_plain_and_of_foreign_titles_witness :
  VideoPlayer.fileName
    {| id := []; videoUrl := []; title := lit "My koala 2"; description := [] |}
  = lit "My_koala_2.mp4"
  /\ VideoPlayer.fileName
       {| id := []; videoUrl := []; title := [0x30B3; 0x30A2; 0x30E9; 0x21];
          description := [] |}
     = lit ".mp4".
Proof.
  split.
  - apply (proj1 (download_name_of_plain_and_of_foreign_titles
                    {| id := []; videoUrl := []; title := lit "My koala 2";
                       description := [] |})).
    repeat (apply List.Forall_cons;
            [first [left; reflexivity | right; reflexivity]|]).
    apply List.Forall_nil.
  - apply (proj2 (download_name_of_plain_and_of_foreign_titles
                    {| id := []; videoUrl := [];
                       title := [0x30B3; 0x30A2; 0x30E9; 0x21];
                       description := [] |})).
    repeat constructor.
Defined.

Example download_of_a_remix :
  VideoPlayer.fileName
    {| id := []; videoUrl := [];
       title := lit "Remix of " ++ dquote ++ lit "Koala" ++ dquote;
       description := [] |}
  = lit "Remix_of_Koala.mp4".
Proof. reflexivity. Qed.

(* ===================================================================== *)
(** ** VideoPlayer and HistoryCard: sharing *)
(* ===================================================================== *)


Lemma share_card_calls nav (video : HistoryVideo) shareFeedback :
  fst (HistoryCard.handleShare nav video shareFeedback)
  = fst (VideoPlayer.handleShare nav video shareFeedback)
  /\ snd (HistoryCard.handleShare nav video shareFeedback)
     = Web.StopPropagation :: snd (VideoPlayer.handleShare nav video shareFeedback).
Proof.
  unfold VideoPlayer.handleShare, HistoryCard.handleShare.
  destruct (Web.share nav) as [navigatorShare|].
  - destruct (navigatorShare _) as [|name];
      [|destruct (bool_decide (name <> lit "AbortError"))]; split; reflexivity.
  - destruct (Web.clipboard nav) as [writeText|];
      [destruct (writeText _)|]; split; reflexivity.
Qed.

Lemma generated_url_is_not_http src :
  Web.startsWith (lit "http") (lit "data:video/mp4;base64," ++ src) = false.
Proof. reflexivity. Qed.

Lemma handleShare_urls nav (video : Video) shareFeedback :
  Web.startsWith (lit "http") (videoUrl video) = false ->
  (forall data,
      In (Web.NavigatorShare data)
         (snd (VideoPlayer.handleShare nav video shareFeedback)) ->
      Web.ShareData.url data = Web.href nav)
  /\ (forall u,
      In (Web.ClipboardWriteText u)
         (snd (VideoPlayer.handleShare nav video shareFeedback)) ->
      u = Web.href nav).
Proof.
  intros Hurl. unfold VideoPlayer.handleShare. rewrite Hurl.
  destruct (Web.share nav) as [navigatorShare|].
  - destruct (navigatorShare _) as [|name];
      [|destruct (bool_decide (name <> lit "AbortError"))];
      (split; [intros data Hin | intros u Hin]); cbn [snd] in Hin;
      repeat (destruct Hin as [Hin|Hin]; [try discriminate Hin|]);
      try contradiction; now injection Hin as <-.
  - destruct (Web.clipboard nav) as [writeText|];
      [destruct (writeText _)|];
      (split; [intros data Hin | intros u Hin]); cbn [snd] in Hin;
      repeat (destruct Hin as [Hin|Hin]; [try discriminate Hin|]);
      try contradiction; now injection Hin as <-.
Qed.

(** X17: sharing a generated video shares the page, not the video. On every
    page reached from a load, for every video of the history, what
    [handleShare] hands to [navigator.share] or writes to the clipboard, from
    the history card and from the player alike, is [window.location.href]:
    the video's own URL is a data URL and is never shared. *)
Theorem generated_videos_share_the_page_link
    (MOCK_VIDEOS : list Video) (stored : list (jsstring * jsstring))
    (inputs : list Input) (b : Browser)
    (nav : Web.Navigator) (video : HistoryVideo) (shareFeedback : jsstring) :
  run MOCK_VIDEOS (load MOCK_VIDEOS stored) inputs = Some b ->
  In video (generatedVideosHistory (app b)) ->
  (forall data,
      In (Web.NavigatorShare data)
         (snd (HistoryCard.handleShare nav video shareFeedback))
      \/ In (Web.NavigatorShare data)
            (snd (VideoPlayer.handleShare nav video shareFeedback)) ->
      Web.ShareData.url data = Web.href nav)
  /\ (forall u,
      In (Web.ClipboardWriteText u)
         (snd (HistoryCard.handleShare nav video shareFeedback))
      \/ In (Web.ClipboardWriteText u)
            (snd (VideoPlayer.handleShare nav video shareFeedback)) ->
      u = Web.href nav).
Proof.
  intros Hrun Hin.
  destruct (run_gallery MOCK_VIDEOS inputs (load MOCK_VIDEOS stored) b)
    as [_ Hurls]; [split; [reflexivity|constructor]|exact Hrun|].
  rewrite List.Forall_forall in Hurls. destruct (Hurls video Hin) as [src Hsrc].
  assert (Hnot : Web.startsWith (lit "http") (videoUrl video) = false)
    by (rewrite Hsrc; apply generated_url_is_not_http).
  destruct (handleShare_urls nav video shareFeedback Hnot) as [Hshare Hclip].
  destruct (share_card_calls nav video shareFeedback) as [_ Hcard].
  split.
  - intros data [Hc|Hp]; [|now apply Hshare].
    rewrite Hcard in Hc. destruct Hc as [Hc|Hc]; [discriminate Hc|].
    now apply Hshare.
  - intros u [Hc|Hp]; [|now apply Hclip].
    rewrite Hcard in Hc. destruct Hc as [Hc|Hc]; [discriminate Hc|].
    now apply Hclip.
Qed.

Lemma generated_videos_share_the_page_link_witness :
  let nav := {| Web.share := None;
                Web.clipboard := Some (fun _ => true);
                Web.href := lit "https://gallery.example/" |} in
  let video :=
    {| toVideo :=
         {| id := lit "3b241101-e2bb-4255-8caf-4136c566a962";
            videoUrl := lit "data:video/mp4;base64,AAAAIGZ0eXA=";
            title := lit "Generated: " ++ dquote ++ lit "a koala" ++ dquote;
            description := lit "a koala" |};
       createdAt := 1700000000000%Z |} in
  (forall data,
      In (Web.NavigatorShare data) (snd (HistoryCard.handleShare nav video []))
      \/ In (Web.NavigatorShare data) (snd (VideoPlayer.handleShare nav video [])) ->
      Web.ShareData.url data = lit "https://gallery.example/")
  /\ (forall u,
      In (Web.ClipboardWriteText u) (snd (HistoryCard.handleShare nav video []))
      \/ In (Web.ClipboardWriteText u) (snd (VideoPlayer.handleShare nav video [])) ->
      u = lit "https://gallery.example/").
Proof.
  intros nav video.
  eapply (generated_videos_share_the_page_link [Sample.clip] [] Sample.session _
            nav video []).
  - reflexivity.
  - left. reflexivity.
Defined.

(* ===================================================================== *)
(** ** A blob that cannot be read *)
(* ===================================================================== *)

Lemma unreadable_blob_pends w g v url res blob :
  video g = Some v ->
  decodeURIComponent w (interpolate (uri v)) = Some url ->
  fetch w (url ++ lit "&key=" ++ interpolate (API_KEY w)) = inr res ->
  ok res = true ->
  body res = inr blob ->
  readAsDataURL w blob = None ->
  fst (fetchGeneratedVideo w g) = Pending.
Proof.
  intros Hv Hurl Hres Hok Hbody Hread. unfold fetchGeneratedVideo, bloblToBase64.
  rewrite Hv. cbn [bind ret]. rewrite Hurl. cbn [bind ret emit].
  rewrite Hres. cbn [bind emit settle ret].
  rewrite Hok, Hbody. cbn [negb bind settle ret]. now rewrite Hread.
Qed.

Lemma Promise_all_pends {A} (ps : list (Started A)) :
  Forall (fun p : Started A => forall e, fst (snd p) <> Rejected e) ps ->
  Exists (fun p : Started A => fst (snd p) = Pending) ps ->
  fst (Promise_all ps) = Pending.
Proof.
  intros Hnone Hone. rewrite Promise_all_fst.
  rewrite (proj2 (firstRejection_None ps) Hnone).
  destruct (fulfilledValues ps) as [l|] eqn:Hl; [|reflexivity].
  exfalso. apply fulfilledValues_Some in Hl.
  rewrite List.Exists_exists in Hone. destruct Hone as (p & Hin & Hp).
  clear Hnone. induction Hl as [|q a ps l Hq _ IH]; [destruct Hin|].
  destruct Hin as [->|Hin]; [congruence|now apply IH].
Qed.

(** X18: a video whose blob cannot be read leaves the page on the saving
    screen for good. When the job is done and, of its videos, none is
    rejected and one never settles (as with a blob the reader fails on, for
    [bloblToBase64] has no error handler), then however long the run is
    given, [generateVideoFromText] stays pending after its last fetch, the
    handler does not settle, [isSaving] stays true, and the page rendered is
    the saving screen, which offers no action. *)
Theorem unsettled_download_leaves_the_page_saving
    (fuel : nat) (w : World) (s : State)
    (op0 opn : Operation) (ops : list Operation)
    (resp : GenerateVideosResponse) (gvs : list GeneratedVideo) :
  trim (newVideoPrompt s) <> [] ->
  generateVideos w (submitted (trim (newVideoPrompt s))) = inr op0 ->
  Polls w 0 op0 ops (inr opn) ->
  (length ops <= fuel)%nat ->
  response opn = Some resp ->
  generatedVideos resp = Some gvs ->
  Forall (fun g => forall e, fst (fetchGeneratedVideo w g) <> Rejected e) gvs ->
  Exists (fun g => fst (fetchGeneratedVideo w g) = Pending) gvs ->
  let r := handleGenerateNewVideo fuel w s in
  settled r = false
  /\ isSaving (final r) = true
  /\ generationError (final r) = None
  /\ render (final r) = SavingProgressPage (lit "Generating your video...")
  /\ forall a, offers (render (final r)) a = false.
Proof.
  intros Hp Hcreate Hpolls Hfuel Hresp Hgvs Hnone Hone r. subst r.
  assert (Hgen : fst (generateVideoFromText fuel w (trim (newVideoPrompt s)))
                 = Pending).
  { unfold generateVideoFromText. cbv zeta.
    change (mkParams VEO_MODEL_NAME (trim (newVideoPrompt s))
                     (mkConfig 1 (lit "16:9")))
      with (submitted (trim (newVideoPrompt s))).
    rewrite bind_fst. cbn [emit fst]. rewrite bind_fst, Hcreate.
    cbn [settle ret fst]. rewrite bind_fst.
    rewrite (pollLoop_Polls w 0 op0 ops (inr opn) Hpolls fuel Hfuel).
    cbn [outcomeOf fst]. rewrite Hresp, Hgvs.
    destruct gvs as [|g gvs]; [inversion Hone|].
    apply Promise_all_pends.
    - rewrite List.Forall_map. exact Hnone.
    - rewrite List.Exists_map. exact Hone. }
  rewrite (handleGenerateNewVideo_started fuel w s Hp).
  destruct (generateVideoFromText fuel w (trim (newVideoPrompt s)))
    as [o t] eqn:Hrun. cbn [fst] in Hgen. subst o.
  rewrite (awaitGeneration_pending _ _ _ _ _ _ _ Hrun).
  cbn [settled final]. repeat split.
Qed.

Lemma unsettled_download_leaves_the_page_saving_witness :
  let r := handleGenerateNewVideo 7 Sample.unreadable Sample.prompted in
  settled r = false
  /\ isSaving (final r) = true
  /\ generationError (final r) = None
  /\ render (final r) = SavingProgressPage (lit "Generating your video...")
  /\ forall a, offers (render (final r)) a = false.
Proof.
  apply (unsettled_download_leaves_the_page_saving 7 Sample.unreadable
           Sample.prompted Sample.running Sample.finished
           [Sample.running; Sample.running; Sample.running]
           {| generatedVideos :=
                Some [ {| video := Some {| uri := Some (lit "https://v.example/1?alt=media") |} |} ] |}
           [ {| video := Some {| uri := Some (lit "https://v.example/1?alt=media") |} |} ]).
  - discriminate.
  - reflexivity.
  - apply (Polls_next _ 0 _ Sample.running); [reflexivity|reflexivity|].
    apply (Polls_next _ 1 _ Sample.running); [reflexivity|reflexivity|].
    apply (Polls_next _ 2 _ Sample.finished); [reflexivity|reflexivity|].
    apply Polls_done. reflexivity.
  - cbn. lia.
  - reflexivity.
  - reflexivity.
  - constructor; [discriminate|constructor].
  - constructor. reflexivity.
Defined.
